(** * NexiAI interview application: a shallow embedding of [interview_app.py]

    The script is a Streamlit page: every user interaction re-executes it from
    the top against the per-user store [st.session_state].  The development
    below embeds

    - the Python string primitives the script calls ([str.strip],
      [str.lstrip], [str.isdigit], [str.split], [in], [str.replace],
      [float]),
    - the two parsers of model output (the question list and the evaluation),
    - one execution of the script as a computation over the session store
      that records what it renders, which model calls it makes and what it
      writes to disk,

    and then settles the properties of the specification on that embedding. *)

From Equations Require Import Equations.
From Equations.Prop Require Import Logic.
From Stdlib Require Import String Ascii List Arith ZArith NArith Lia Bool.
From Stdlib Require Import Floats.SpecFloat.
Import ListNotations.

Set Default Goal Selector "!".

(* ===================================================================== *)
(** * Python strings *)
(* ===================================================================== *)

(** A Python [str] is a sequence of code points.  The model keeps the code
    points U+0000..U+00FF (Latin-1), one [ascii] value per code point, so a
    plain ASCII literal denotes itself. *)
Module PyStr.

Definition pystr := list ascii.

(** [str "abc"] is the Python literal ['abc']. *)
Definition str (s : string) : pystr := list_ascii_of_string s.

(** The line feed ['\n']. *)
Definition LF : ascii := ascii_of_N 10.
Definition nl : pystr := [LF].

Definition code (c : ascii) : N := N_of_ascii c.

Definition in_range (lo hi : N) (c : ascii) : bool :=
  (N.leb lo (code c) && N.leb (code c) hi)%bool.

(** [str.isspace] on one character.  Below U+0100, CPython's
    [Py_UNICODE_ISSPACE] holds for U+0009..U+000D, U+001C..U+0020, U+0085
    and U+00A0. *)
Definition isspace (c : ascii) : bool :=
  (in_range 9 13 c || in_range 28 32 c
   || N.eqb (code c) 133 || N.eqb (code c) 160)%bool.

(** The ten decimal digits ['0'..'9']. *)
Definition isdecimal (c : ascii) : bool := in_range 48 57 c.

(** [str.isdigit] on one character: Numeric_Type Decimal or Digit.  Below
    U+0100 these are ['0'..'9'] and the superscripts U+00B2, U+00B3 and
    U+00B9. *)
Definition isdigit (c : ascii) : bool :=
  (isdecimal c || N.eqb (code c) 178 || N.eqb (code c) 179
   || N.eqb (code c) 185)%bool.

(** [s.lstrip()] *)
Fixpoint lstrip (s : pystr) : pystr :=
  match s with
  | [] => []
  | c :: s' => if isspace c then lstrip s' else s
  end.

(** [s.rstrip()] *)
Definition rstrip (s : pystr) : pystr := rev (lstrip (rev s)).

(** [s.strip()]: white space is dropped at the left end, then at the right. *)
Definition strip (s : pystr) : pystr := rstrip (lstrip s).

(** Truth value of a string: non-empty. *)
Definition truthy (s : pystr) : bool :=
  match s with [] => false | _ :: _ => true end.

(** [s.startswith(p)], returning what follows the prefix. *)
Fixpoint strip_prefix (p s : pystr) : option pystr :=
  match p, s with
  | [], _ => Some s
  | _ :: _, [] => None
  | a :: p', b :: s' => if Ascii.eqb a b then strip_prefix p' s' else None
  end.

(** [s.partition(sep)] when [sep] occurs: the text before the leftmost
    occurrence of [sep] and the text after it; [None] when [sep] does not
    occur in [s]. *)
Fixpoint partition (sep s : pystr) : option (pystr * pystr) :=
  match strip_prefix sep s with
  | Some rest => Some ([], rest)
  | None =>
      match s with
      | [] => None
      | c :: s' =>
          match partition sep s' with
          | Some (pre, post) => Some (c :: pre, post)
          | None => None
          end
      end
  end.

(** [sep in s] *)
Definition contains (sep s : pystr) : bool :=
  match partition sep s with Some _ => true | None => false end.

(** [s.split(sep)] for a non-empty separator: cut at the leftmost occurrence
    of [sep] and go on after it.  (Python raises [ValueError] for an empty
    separator; every call site of the script passes a literal.) *)
Equations? split (sep s : pystr) : list pystr by wf (length s) lt :=
  split [] s := [s];
  split (a :: sep') s with inspect (partition (a :: sep') s) => {
    | exist _ (Some (pre, post)) E := pre :: split (a :: sep') post;
    | exist _ None _ := [s] }.
Proof.
  clear split.
  assert (L : forall p t r,
             strip_prefix p t = Some r ->
             List.length t = List.length p + List.length r).
  { induction p as [|x p IH]; intros [|y t] r; simpl; try discriminate.
    - intros H; inversion H; reflexivity.
    - intros H; inversion H; reflexivity.
    - destruct (Ascii.eqb x y); [|discriminate].
      intros H. now rewrite (IH _ _ H). }
  revert pre post E. induction s as [|c s IH]; intros pre post; simpl.
  - discriminate.
  - destruct (Ascii.eqb a c); [destruct (strip_prefix sep' s) eqn:P|].
    + intros H; inversion H; subst. apply L in P. lia.
    + destruct (partition (a :: sep') s) as [[x y]|]; [|discriminate].
      intros H; inversion H; subst. specialize (IH _ _ eq_refl). lia.
    + destruct (partition (a :: sep') s) as [[x y]|]; [|discriminate].
      intros H; inversion H; subst. specialize (IH _ _ eq_refl). lia.
Qed.

(** [s.replace(old, new)] for one-character [old] and [new]: every occurrence
    is replaced. *)
Definition replace (old new : ascii) (s : pystr) : pystr :=
  map (fun c => if Ascii.eqb c old then new else c) s.

End PyStr.
Export PyStr.

(* ===================================================================== *)
(** * Exceptions *)
(* ===================================================================== *)

(** The exceptions the script can meet.  [ModelError] stands for whatever
    the hosted model call raises (network, authentication, rate limit). *)
Inductive exn : Set :=
| IndexError | ValueError | AttributeError | ModelError | OSError.

Inductive res (A : Type) : Type :=
| Ok (a : A)
| Raise (e : exn).
Arguments Ok {A} a.
Arguments Raise {A} e.

Definition res_bind {A B} (m : res A) (k : A -> res B) : res B :=
  match m with Ok a => k a | Raise e => Raise e end.

Declare Scope res_scope.
Delimit Scope res_scope with res.
Notation "x <- m ;; k" := (res_bind m (fun x => k))
  (at level 61, m at next level, right associativity) : res_scope.

(** [l[i]] for a non-negative index. *)
Definition index {A} (l : list A) (i : nat) : res A :=
  match nth_error l i with Some x => Ok x | None => Raise IndexError end.

(* ===================================================================== *)
(** * [float(s)] *)
(* ===================================================================== *)

Module PyFloat.

(** IEEE 754 binary64, as Python's [float]. *)
Definition prec : Z := 53.
Definition emax : Z := 1024.
Definition float64 := spec_float.

(** The double [m * 2^e], rounded to nearest even. *)
Definition b64 (m e : Z) : float64 := binary_normalize prec emax m e false.

(** A decimal literal [(-1)^neg * mant * 10^exp10], before rounding. *)
Record decimal := { d_neg : bool; d_mant : N; d_exp10 : Z }.

(** The double nearest to a decimal, ties to even; overflow gives an
    infinity and underflow a signed zero, as [float] does. *)
Definition round_decimal (d : decimal) : float64 :=
  match d_mant d with
  | N0 => S754_zero (d_neg d)
  | Npos m =>
      match d_exp10 d with
      | Zneg k =>
          let '(q, e, l) :=
            SFdiv_core_binary prec emax (Zpos m) 0 (Z.pow 10 (Zpos k)) 0 in
          binary_round_aux prec emax (d_neg d) q e l
      | e10 =>
          binary_normalize prec emax
            (cond_Zopp (d_neg d) (Zpos m * Z.pow 10 e10)) 0 (d_neg d)
      end
  end.

(** [_PyUnicode_TransformDecimalAndSpaceToASCII]: code points below U+007F
    stay, white space becomes a blank, other decimal digits become ASCII
    digits, and the first character that is none of these becomes ['?'] and
    ends the string.  Latin-1 has no decimal digit above U+007E. *)
Fixpoint to_ascii_decimal (s : pystr) : pystr :=
  match s with
  | [] => []
  | c :: s' =>
      if N.ltb (code c) 127 then c :: to_ascii_decimal s'
      else if isspace c then " "%char :: to_ascii_decimal s'
      else ["?"%char]
  end.

(** The loop of [_Py_string_to_number_with_underscores]: an underscore is
    dropped when it stands between two digits and is an error elsewhere. *)
Fixpoint drop_underscores (prev : ascii) (s : pystr) : option pystr :=
  match s with
  | [] => if Ascii.eqb prev "_" then None else Some []
  | c :: s' =>
      if Ascii.eqb c "_" then
        if isdecimal prev then drop_underscores c s' else None
      else if (Ascii.eqb prev "_" && negb (isdecimal c))%bool then None
      else option_map (cons c) (drop_underscores c s')
  end.

Definition without_underscores (s : pystr) : option pystr :=
  if existsb (Ascii.eqb "_") s then drop_underscores Ascii.zero s
  else Some s.

(** C's [Py_ISSPACE]: blank, tab, line feed, vertical tab, form feed,
    carriage return. *)
Definition c_isspace (c : ascii) : bool :=
  (in_range 9 13 c || N.eqb (code c) 32)%bool.

Fixpoint c_lstrip (s : pystr) : pystr :=
  match s with
  | [] => []
  | c :: s' => if c_isspace c then c_lstrip s' else s
  end.

Definition c_strip (s : pystr) : pystr := rev (c_lstrip (rev (c_lstrip s))).

(** An optional sign. *)
Definition take_sign (s : pystr) : bool * pystr :=
  match s with
  | "-"%char :: s' => (true, s')
  | "+"%char :: s' => (false, s')
  | _ => (false, s)
  end.

(** The longest prefix of decimal digits and what follows it. *)
Fixpoint take_digits (s : pystr) : pystr * pystr :=
  match s with
  | c :: s' =>
      if isdecimal c then let '(ds, rest) := take_digits s' in (c :: ds, rest)
      else ([], s)
  | [] => ([], [])
  end.

Definition digits_value (ds : pystr) : N :=
  fold_left (fun acc c => (10 * acc + (code c - 48))%N) ds 0%N.

Definition lower (c : ascii) : ascii :=
  if in_range 65 90 c then ascii_of_N (code c + 32) else c.

(** Case-insensitive [startswith] against a lower-case word. *)
Definition strip_word (w : string) (s : pystr) : option pystr :=
  let n := List.length (str w) in
  if list_eq_dec Ascii.ascii_dec (map lower (firstn n s)) (str w)
  then Some (skipn n s) else None.

(** [_Py_parse_inf_or_nan]: [inf], [infinity] or [nan] in any case, after an
    optional sign. *)
Definition parse_inf_or_nan (s : pystr) : option (float64 * pystr) :=
  let '(neg, s1) := take_sign s in
  match strip_word "inf" s1 with
  | Some s2 =>
      match strip_word "inity" s2 with
      | Some s3 => Some (S754_infinity neg, s3)
      | None => Some (S754_infinity neg, s2)
      end
  | None =>
      match strip_word "nan" s1 with
      | Some s2 => Some (S754_nan, s2)
      | None => None
      end
  end.

(** The grammar [_Py_dg_strtod] accepts: sign, digits with an optional
    point (at least one digit in all), and an exponent that counts only when
    it has a digit. *)
Definition parse_decimal (s : pystr) : option (decimal * pystr) :=
  let '(neg, s1) := take_sign s in
  let '(ip, s2) := take_digits s1 in
  let '(fp, s3) :=
    match s2 with
    | "."%char :: t => take_digits t
    | _ => ([], s2)
    end in
  match ip ++ fp with
  | [] => None
  | _ :: _ =>
      let '(e, s4) :=
        match s3 with
        | c :: t =>
            if Ascii.eqb (lower c) "e" then
              let '(eneg, t1) := take_sign t in
              let '(ed, t2) := take_digits t1 in
              match ed with
              | [] => (0%Z, s3)
              | _ :: _ => (cond_Zopp eneg (Z.of_N (digits_value ed)), t2)
              end
            else (0%Z, s3)
        | [] => (0%Z, s3)
        end in
      Some ({| d_neg := neg;
               d_mant := digits_value (ip ++ fp);
               d_exp10 := e - Z.of_nat (List.length fp) |}, s4)
  end.

(** [PyOS_string_to_double] as [float] calls it: a decimal first, [inf] or
    [nan] when no decimal starts the string. *)
Definition string_to_double (s : pystr) : option (float64 * pystr) :=
  match parse_decimal s with
  | Some (d, rest) => Some (round_decimal d, rest)
  | None => parse_inf_or_nan s
  end.

(** [float(s)] for a string argument: [ValueError] unless the whole
    string, white space aside, is one literal. *)
Definition float (s : pystr) : res float64 :=
  match without_underscores (to_ascii_decimal s) with
  | None => Raise ValueError
  | Some t =>
      match string_to_double (c_strip t) with
      | Some (x, []) => Ok x
      | _ => Raise ValueError
      end
  end.

End PyFloat.
Export PyFloat.

(* ===================================================================== *)
(** * Parsing the model's output *)
(* ===================================================================== *)

(** A Python number as the script stores it: the [int] literal of the
    fallback or the [float] that [float()] returned. *)
Inductive pynum : Set :=
| PyInt (z : Z)
| PyFloat (f : float64).

(** One entry of [st.session_state.evaluations]:
    [{"score": score, "comment": comment}]. *)
Record evaluation := { score : pynum; comment : pystr }.

Module Parser.

Local Open Scope res_scope.

(** The condition of the comprehension on lines 70-73:
    [q.strip() and q.lstrip()[0].isdigit()]. *)
Definition keep_question (q : pystr) : res bool :=
  if truthy (strip q) then
    c <- index (lstrip q) 0 ;;
    Ok (isdigit c)
  else Ok false.

(** [[q.strip() for q in lines if q.strip() and q.lstrip()[0].isdigit()]] *)
Fixpoint question_comprehension (lines : list pystr) : res (list pystr) :=
  match lines with
  | [] => Ok []
  | q :: lines' =>
      keep <- keep_question q ;;
      rest <- question_comprehension lines' ;;
      Ok (if keep then strip q :: rest else rest)
  end.

(** Lines 70-73. *)
Definition parse_questions (questions_text : pystr) : res (list pystr) :=
  question_comprehension (split nl questions_text).

(** [[line for line in eval_text.split("\n") if marker in line]] *)
Definition lines_with (marker : string) (eval_text : pystr) : list pystr :=
  filter (contains (str marker)) (split nl eval_text).

(** The body of the [try] on lines 103-104. *)
Definition try_score (eval_text : pystr) : res float64 :=
  score_line <- index (lines_with "Score:" eval_text) 0 ;;
  after <- index (split (str "Score:") score_line) 1 ;;
  float (strip after).

(** Lines 102-106: any exception of the body gives the integer 0. *)
Definition parse_score (eval_text : pystr) : pynum :=
  match try_score eval_text with
  | Ok x => PyFloat x
  | Raise _ => PyInt 0
  end.

(** Lines 108-109; nothing catches an exception here. *)
Definition parse_comment (eval_text : pystr) : res pystr :=
  let comment_line := lines_with "Comment:" eval_text in
  match comment_line with
  | _ :: _ =>
      first <- index comment_line 0 ;;
      after <- index (split (str "Comment:") first) 1 ;;
      Ok (strip after)
  | [] => Ok []
  end.

(** Lines 101-113: the evaluation recorded for a model response. *)
Definition parse_evaluation (eval_text : pystr) : res evaluation :=
  let score := parse_score eval_text in
  comment <- parse_comment eval_text ;;
  Ok {| score := score; comment := comment |}.

End Parser.
Export Parser.

(* ===================================================================== *)
(** * The Streamlit page *)
(* ===================================================================== *)

(** The options of the tone select box (line 53). *)
Inductive tone_option : Set := friendly | professional | simple.

Definition tone_str (t : tone_option) : pystr :=
  match t with
  | friendly => str "friendly"
  | professional => str "professional"
  | simple => str "simple"
  end.

(** The buttons of the page.  The submit button carries the question index
    of its key [f"submit_{q_index}"]. *)
Inductive button : Set :=
| StartInterview
| ExitInterview
| SubmitAnswer (q_index : nat)
| SaveInterview.

Definition button_eqb (a b : button) : bool :=
  match a, b with
  | StartInterview, StartInterview => true
  | ExitInterview, ExitInterview => true
  | SubmitAnswer i, SubmitAnswer j => Nat.eqb i j
  | SaveInterview, SaveInterview => true
  | _, _ => false
  end.

(** What the widgets hand to one execution of the script: the side bar
    values (lines 52-54), the button whose click caused this execution, if
    any, and the content of the text area with key [f"answer_{k}"]. *)
Record widgets := {
  field : pystr;
  tone : tone_option;
  num_questions : Z;
  clicked : option button;
  answer_box : nat -> pystr
}.

(** A JSON document as [json.dump] receives it; an object keeps the
    insertion order of the [dict]. *)
#[warnings="-register-all"]
Inductive json : Type :=
| JString (s : pystr)
| JNumber (v : pynum)
| JArray (items : list json)
| JObject (members : list (pystr * json)).

(** The collaborators of one execution: the two chains and the file
    system behind [open(filename, "w")]. *)
Record environment := {
  question_chain : pystr -> tone_option -> Z -> res pystr;
  eval_chain : pystr -> pystr -> res pystr;
  open_w : pystr -> res unit
}.

(** An f-string: literal text and formatted values. *)
Inductive piece : Type :=
| Text (s : pystr)
| Num (v : pynum).
Definition fstring := list piece.

(** What an execution does to the outside, in order. *)
Inductive effect : Type :=
| Button (b : button)
| Subheader (text : fstring)
| TextArea (label : pystr) (key : nat)
| Warning (text : pystr)
| SuccessCompleted                     (* "<target emoji> Interview Completed!" *)
| SuccessSaved (filename : pystr)      (* f"Interview saved to {filename}" *)
| Markdown (text : fstring)
| InvokeQuestionChain (field : pystr) (tone : tone_option) (num_questions : Z)
| InvokeEvalChain (question answer : pystr)
| JsonDump (filename : pystr) (data : json).

(** [st.session_state], with the four keys the script uses; [None] is an
    absent key. *)
Record session_state := {
  questions : option (list pystr);
  answers : option (list pystr);
  evaluations : option (list evaluation);
  current_q : option nat
}.

(** The store of a new browser session. *)
Definition fresh : session_state :=
  {| questions := None; answers := None; evaluations := None;
     current_q := None |}.

(** Why an execution stopped before the last line. *)
Inductive stop : Set :=
| Uncaught (e : exn)
| RerunRequested.

Module Script.

(** A script fragment: from the store to a value or a stop, the store it
    leaves and the effects it had. *)
Definition script (A : Type) : Type :=
  session_state -> (A + stop) * session_state * list effect.

Definition ret {A} (a : A) : script A := fun s => (inl a, s, []).

Definition bind {A B} (m : script A) (k : A -> script B) : script B :=
  fun s =>
    match m s with
    | (inl a, s1, t1) =>
        let '(r, s2, t2) := k a s1 in (r, s2, t1 ++ t2)
    | (inr e, s1, t1) => (inr e, s1, t1)
    end.

Declare Scope script_scope.
Delimit Scope script_scope with script.
Notation "x <- m ;; k" := (bind m (fun x => k))
  (at level 61, m at next level, right associativity) : script_scope.
Notation "m ;; k" := (bind m (fun _ => k))
  (at level 61, right associativity) : script_scope.
Local Open Scope script_scope.

Definition emit (e : effect) : script unit := fun s => (inl tt, s, [e]).
Definition halt {A} (e : stop) : script A := fun s => (inr e, s, []).
Definition get : script session_state := fun s => (inl s, s, []).
Definition put (s : session_state) : script unit := fun _ => (inl tt, s, []).

Definition lift {A} (r : res A) : script A :=
  match r with Ok a => ret a | Raise e => halt (Uncaught e) end.

(** Reading an attribute of [st.session_state]; an absent key raises
    [AttributeError]. *)
Definition attr {A} (proj : session_state -> option A) : script A :=
  s <- get ;;
  match proj s with
  | Some v => ret v
  | None => halt (Uncaught AttributeError)
  end.

Definition set_questions (v : list pystr) : script unit :=
  s <- get ;;
  put {| questions := Some v; answers := answers s;
         evaluations := evaluations s; current_q := current_q s |}.
Definition set_answers (v : list pystr) : script unit :=
  s <- get ;;
  put {| questions := questions s; answers := Some v;
         evaluations := evaluations s; current_q := current_q s |}.
Definition set_evaluations (v : list evaluation) : script unit :=
  s <- get ;;
  put {| questions := questions s; answers := answers s;
         evaluations := Some v; current_q := current_q s |}.
Definition set_current_q (v : nat) : script unit :=
  s <- get ;;
  put {| questions := questions s; answers := answers s;
         evaluations := evaluations s; current_q := Some v |}.

(** [st.button(...)]: draws the button; true in the execution its click
    caused. *)
Definition st_button (w : widgets) (b : button) : script bool :=
  emit (Button b) ;;
  ret (match clicked w with Some c => button_eqb c b | None => false end).

(** [st.experimental_rerun()]: stops this execution and asks for another.
    This is the function of the Streamlit releases that have it; where the
    attribute has been removed the call raises [AttributeError] instead.
    Either way the script stops here, after the store was updated. *)
Definition experimental_rerun : script unit := halt RerunRequested.

(** ["questions" in st.session_state and st.session_state.questions] *)
Definition has_questions : script bool :=
  s <- get ;;
  ret (match questions s with Some (_ :: _) => true | _ => false end).

(** Lines 58-61 and 79-82. *)
Definition reset : script unit :=
  set_questions [] ;;
  set_answers [] ;;
  set_evaluations [] ;;
  set_current_q 0.

(** Lines 57-74. *)
Definition start_block (env : environment) (w : widgets) : script unit :=
  pressed <- st_button w StartInterview ;;
  s <- get ;;
  if (pressed || match questions s with None => true | Some _ => false end)%bool
  then
    reset ;;
    emit (InvokeQuestionChain (field w) (tone w) (num_questions w)) ;;
    questions_text <-
      lift (question_chain env (field w) (tone w) (num_questions w)) ;;
    qs <- lift (parse_questions questions_text) ;;
    set_questions qs
  else ret tt.

(** Lines 77-83. *)
Definition exit_block (w : widgets) : script unit :=
  shown <- has_questions ;;
  if shown then
    pressed <- st_button w ExitInterview ;;
    if pressed then reset ;; experimental_rerun else ret tt
  else ret tt.

(** Lines 90-118: the question on display and its submit button. *)
Definition question_branch (env : environment) (w : widgets) (q_index : nat)
  : script unit :=
  qs <- attr questions ;;
  q <- lift (index qs q_index) ;;
  emit (Subheader [Text (str "Q"); Num (PyInt (Z.of_nat q_index + 1));
                   Text (str ": "); Text q]) ;;
  emit (TextArea (str "Your Answer:") q_index) ;;
  let answer := answer_box w q_index in
  pressed <- st_button w (SubmitAnswer q_index) ;;
  if pressed then
    if truthy (strip answer) then
      qs <- attr questions ;;
      q <- lift (index qs q_index) ;;
      emit (InvokeEvalChain q answer) ;;
      eval_text <- lift (eval_chain env q answer) ;;
      ev <- lift (parse_evaluation eval_text) ;;
      ans <- attr answers ;;
      set_answers (ans ++ [answer]) ;;
      evs <- attr evaluations ;;
      set_evaluations (evs ++ [ev]) ;;
      i <- attr current_q ;;
      set_current_q (i + 1) ;;
      experimental_rerun
    else emit (Warning (str "Please type an answer before submitting."))
  else ret tt.

(** [zip(questions, answers, evaluations)] *)
Fixpoint zip3 {A B C} (l1 : list A) (l2 : list B) (l3 : list C)
  : list (A * B * C) :=
  match l1, l2, l3 with
  | a :: l1', b :: l2', c :: l3' => (a, b, c) :: zip3 l1' l2' l3'
  | _, _, _ => []
  end.

(** Lines 122-131, from position [i]. *)
Fixpoint report (i : nat) (rows : list (pystr * pystr * evaluation))
  : script unit :=
  match rows with
  | [] => ret tt
  | (q, a, e) :: rows' =>
      emit (Markdown [Text (str "**Q"); Num (PyInt (Z.of_nat i + 1));
                      Text (str ": "); Text q; Text (str "**")]) ;;
      emit (Markdown [Text (str "- Your Answer: "); Text a]) ;;
      emit (Markdown [Text (str "- Score: "); Num (score e);
                      Text (str " / 10")]) ;;
      emit (Markdown [Text (str "- Comment: "); Text (comment e)]) ;;
      emit (Markdown [Text (str "---")]) ;;
      report (S i) rows'
  end.

(** Line 134. *)
Definition transcript_filename (field : pystr) : pystr :=
  str "interview_" ++ replace " " "_" field ++ str ".json".

Definition json_evaluation (e : evaluation) : json :=
  JObject [(str "score", JNumber (score e));
           (str "comment", JString (comment e))].

(** Lines 135-141. *)
Definition transcript (w : widgets) (qs ans : list pystr)
  (evs : list evaluation) : json :=
  JObject [(str "field", JString (field w));
           (str "tone", JString (tone_str (tone w)));
           (str "questions", JArray (map JString qs));
           (str "answers", JArray (map JString ans));
           (str "evaluations", JArray (map json_evaluation evs))].

(** Lines 121-145: the report and the save button.  Of lines 142-144 only
    [open] is given a way to fail; a failure of [json.dump] or of closing
    the file is not modelled. *)
Definition completed_branch (env : environment) (w : widgets) : script unit :=
  emit SuccessCompleted ;;
  qs <- attr questions ;;
  ans <- attr answers ;;
  evs <- attr evaluations ;;
  report 0 (zip3 qs ans evs) ;;
  pressed <- st_button w SaveInterview ;;
  if pressed then
    let filename := transcript_filename (field w) in
    qs <- attr questions ;;
    ans <- attr answers ;;
    evs <- attr evaluations ;;
    let data := transcript w qs ans evs in
    lift (open_w env filename) ;;
    emit (JsonDump filename data) ;;
    emit (SuccessSaved filename)
  else ret tt.

(** Lines 86-145. *)
Definition interview_loop (env : environment) (w : widgets) : script unit :=
  shown <- has_questions ;;
  if shown then
    s <- get ;;
    let q_index := match current_q s with Some i => i | None => 0 end in
    qs <- attr questions ;;
    if q_index <? List.length qs then question_branch env w q_index
    else completed_branch env w
  else ret tt.

(** One execution of [interview_app.py] from line 57 on. *)
Definition app (env : environment) (w : widgets) : script unit :=
  start_block env w ;;
  exit_block w ;;
  interview_loop env w.

End Script.
Export Script.

(** The result of one execution. *)
Record outcome := {
  stopped : option stop;
  store : session_state;
  trace : list effect
}.

Definition run (env : environment) (w : widgets) (s : session_state)
  : outcome :=
  let '(r, s', t) := app env w s in
  {| stopped := match r with inl _ => None | inr e => Some e end;
     store := s'; trace := t |}.

(** The same widgets with no button pressed, as Streamlit re-executes the
    script after [experimental_rerun]. *)
Definition unclicked (w : widgets) : widgets :=
  {| field := field w; tone := tone w; num_questions := num_questions w;
     clicked := None; answer_box := answer_box w |}.

(** One user event handled to the end: the execution it causes and, when
    that one asks for it, the re-execution. *)
Definition interact (env : environment) (w : widgets) (s : session_state)
  : outcome :=
  let o := run env w s in
  match stopped o with
  | Some RerunRequested =>
      let o' := run env (unclicked w) (store o) in
      {| stopped := stopped o'; store := store o';
         trace := trace o ++ trace o' |}
  | _ => o
  end.

(** The stores a session can be in: the fresh one and whatever an execution
    leaves, for any widgets and any behaviour of the collaborators. *)
Inductive reachable : session_state -> Prop :=
| reach_fresh : reachable fresh
| reach_run env w s : reachable s -> reachable (store (run env w s)).

(** The states of the specification, read off the branches the script takes
    on lines 86, 89 and 120. *)
Inductive phase : Set :=
| NOT_STARTED
| AWAITING_ANSWER (i : nat)
| COMPLETED.

Definition phase_of (s : session_state) : phase :=
  match questions s with
  | Some (q :: qs) =>
      let i := match current_q s with Some i => i | None => 0 end in
      if i <? List.length (q :: qs) then AWAITING_ANSWER i else COMPLETED
  | _ => NOT_STARTED
  end.

(* ===================================================================== *)
(** * Notions the statements use *)
(* ===================================================================== *)

(** ** What the parsers compute *)

(** A string that does not begin with white space. *)
Definition lstripped (s : pystr) : Prop :=
  match s with [] => True | c :: _ => isspace c = false end.

(** A line whose trimmed text begins with a character [isdigit] accepts. *)
Definition digit_led (q : pystr) : bool :=
  match strip q with c :: _ => isdigit c | [] => false end.

(** The question list the script stores for a model response. *)
Definition questions_of (questions_text : pystr) : list pystr :=
  map strip (filter digit_led (split nl questions_text)).

(** The text between the first occurrence of [sep] in [line] and the next
    one, or the end of the line. *)
Definition segment_after (sep line : pystr) : option pystr :=
  match partition sep line with
  | Some (_, post) =>
      Some (match partition sep post with
            | Some (mid, _) => mid
            | None => post
            end)
  | None => None
  end.

(** The first line of [eval_text] that contains [marker]. *)
Definition first_line_with (marker : string) (eval_text : pystr)
  : option pystr :=
  find (contains (str marker)) (split nl eval_text).

(** The comment the script stores for a model response. *)
Definition comment_of (eval_text : pystr) : pystr :=
  match first_line_with "Comment:" eval_text with
  | Some line =>
      match segment_after (str "Comment:") line with
      | Some seg => strip seg
      | None => []
      end
  | None => []
  end.

(** The text a marker line is read from: what stands between the leftmost
    occurrence of the marker and the next one, or the end of the line. *)
Definition field_text (marker post : pystr) : pystr :=
  match partition marker post with
  | Some (mid, _) => mid
  | None => post
  end.

(** The score read from the text after the marker. *)
Definition score_from (text : pystr) : pynum :=
  match float (strip text) with
  | Ok x => PyFloat x
  | Raise _ => PyInt 0
  end.

(** ** The parsing policy in the specification's words *)

Module Spec.

(** "Keep a line iff, after trimming, it is non-empty and its first
    non-whitespace character is a decimal digit." *)
Definition keeps (line : pystr) : bool :=
  match strip line with c :: _ => isdecimal c | [] => false end.

(** "Retained lines are kept verbatim and order-preserved." *)
Definition kept_lines (response : pystr) : list pystr :=
  filter keeps (split nl response).

(** "Split that line on the first occurrence of the marker": what follows
    the first occurrence. *)
Definition remainder (marker : string) (line : pystr) : option pystr :=
  match partition (str marker) line with
  | Some (_, rest) => Some rest
  | None => None
  end.

(** "Select the first line containing [Score:]; split that line on the first
    occurrence and parse the remainder (trimmed) as a floating-point number;
    if no such line exists, or parsing fails, the score defaults to 0." *)
Definition score_of (text : pystr) : pynum :=
  match first_line_with "Score:" text with
  | Some line =>
      match remainder "Score:" line with
      | Some rest =>
          match float (strip rest) with
          | Ok x => PyFloat x
          | Raise _ => PyInt 0
          end
      | None => PyInt 0
      end
  | None => PyInt 0
  end.

(** "Scan for the first line containing [Comment:]; split on first
    occurrence and trim the remainder.  If no such line exists, comment
    defaults to an empty string." *)
Definition comment_text (text : pystr) : pystr :=
  match first_line_with "Comment:" text with
  | Some line =>
      match remainder "Comment:" line with
      | Some rest => strip rest
      | None => []
      end
  | None => []
  end.

End Spec.

(** ** Stores, pages and outcomes *)

(** A store with all four keys. *)
Definition ready (qs ans : list pystr) (evs : list evaluation) (n : nat)
  : session_state :=
  {| questions := Some qs; answers := Some ans; evaluations := Some evs;
     current_q := Some n |}.

(** What lines 58-61 and 79-82 leave. *)
Definition cleared : session_state := ready [] [] [] 0.

Section Widgets.

Variable w : widgets.

(** The start block runs when its button was pressed or the store is new. *)
Definition starts (s : session_state) : bool :=
  (match clicked w with Some StartInterview => true | _ => false end
   || match questions s with None => true | Some _ => false end)%bool.

(** [st.button(b)] is true in this execution. *)
Definition pressed (b : button) : bool :=
  match clicked w with Some c => button_eqb c b | None => false end.

Definition ask : effect :=
  InvokeQuestionChain (field w) (tone w) (num_questions w).

End Widgets.

(** The questions are on display: the guard of lines 77 and 86. *)
Definition shown (s : session_state) : bool :=
  match questions s with Some (_ :: _) => true | _ => false end.

(** The widgets of the question on display. *)
Definition question_widgets (n : nat) (q : pystr) : list effect :=
  [Subheader [Text (str "Q"); Num (PyInt (Z.of_nat n + 1));
              Text (str ": "); Text q];
   TextArea (str "Your Answer:") n;
   Button (SubmitAnswer n)].

(** The report of lines 122-131 as the list of its effects. *)
Fixpoint report_effects (i : nat) (rows : list (pystr * pystr * evaluation))
  : list effect :=
  match rows with
  | [] => []
  | (q, a, e) :: rows' =>
      Markdown [Text (str "**Q"); Num (PyInt (Z.of_nat i + 1));
                Text (str ": "); Text q; Text (str "**")]
      :: Markdown [Text (str "- Your Answer: "); Text a]
      :: Markdown [Text (str "- Score: "); Num (score e); Text (str " / 10")]
      :: Markdown [Text (str "- Comment: "); Text (comment e)]
      :: Markdown [Text (str "---")]
      :: report_effects (S i) rows'
  end.

(** What the completed page shows before it looks at the save button. *)
Definition completed_widgets (qs ans : list pystr) (evs : list evaluation)
  : list effect :=
  SuccessCompleted :: report_effects 0 (zip3 qs ans evs)
  ++ [Button SaveInterview].

(** The index line 87 reads. *)
Definition q_index_of (s : session_state) : nat :=
  match current_q s with Some i => i | None => 0 end.

(** What the page shows under the start button for a fresh question list. *)
Definition first_question (qs : list pystr) : list effect :=
  match qs with
  | [] => []
  | q :: _ => Button ExitInterview :: question_widgets 0 q
  end.

Section Outcomes.

Variable env : environment.
Variable w : widgets.

(** The outcome of the submit button on the question on display. *)
Definition submit_outcome (qs ans : list pystr) (evs : list evaluation)
  (n : nat) (q : pystr) : outcome :=
  let s := ready qs ans evs n in
  let answer := answer_box w n in
  let page := [Button StartInterview; Button ExitInterview]
               ++ question_widgets n q in
  if truthy (strip answer) then
    match eval_chain env q answer with
    | Ok eval_text =>
        {| stopped := Some RerunRequested;
           store := ready qs (ans ++ [answer])
                      (evs ++ [{| score := parse_score eval_text;
                                  comment := comment_of eval_text |}])
                      (n + 1);
           trace := page ++ [InvokeEvalChain q answer] |}
    | Raise e =>
        {| stopped := Some (Uncaught e); store := s;
           trace := page ++ [InvokeEvalChain q answer] |}
    end
  else
    {| stopped := None; store := s;
       trace := page
                ++ [Warning (str "Please type an answer before submitting.")] |}.

(** The outcome of an execution on the completed page. *)
Definition completed_outcome (qs ans : list pystr) (evs : list evaluation)
  (n : nat) : outcome :=
  let s := ready qs ans evs n in
  let filename := transcript_filename (field w) in
  let page := [Button StartInterview; Button ExitInterview]
               ++ completed_widgets qs ans evs in
  if pressed w SaveInterview then
    match open_w env filename with
    | Ok _ =>
        {| stopped := None; store := s;
           trace := page ++ [JsonDump filename (transcript w qs ans evs);
                              SuccessSaved filename] |}
    | Raise e => {| stopped := Some (Uncaught e); store := s; trace := page |}
    end
  else {| stopped := None; store := s; trace := page |}.

End Outcomes.

(** [len(answers) == len(evaluations) == current_q <= len(questions)] on the
    keys of the store; the store of a new browser session has none of them
    yet. *)
Definition session_inv (s : session_state) : Prop :=
  match questions s, answers s, evaluations s, current_q s with
  | Some qs, Some ans, Some evs, Some n =>
      List.length ans = n /\ List.length evs = n /\ n <= List.length qs
  | None, None, None, None => True
  | _, _, _, _ => False
  end.

(** All four keys are there and the invariant holds of them. *)
Definition initialised (s : session_state) : Prop :=
  exists qs ans evs n,
    s = ready qs ans evs n /\
    List.length ans = n /\ List.length evs = n /\ n <= List.length qs.

(** One answered question: the submit button of the question on display is
    pressed with a non-blank answer, the evaluator's model call returns, and
    the re-execution the script asks for has run. *)
Inductive submit_answer : session_state -> session_state -> Prop :=
| submit_answer_ok env w qs ans evs n q eval_text :
    nth_error qs n = Some q ->
    clicked w = Some (SubmitAnswer n) ->
    truthy (strip (answer_box w n)) = true ->
    eval_chain env q (answer_box w n) = Ok eval_text ->
    submit_answer (ready qs ans evs n)
      (store (interact env w (ready qs ans evs n))).

(** [n] answered questions in a row. *)
Inductive submits : nat -> session_state -> session_state -> Prop :=
| submits_O s : submits 0 s s
| submits_S n s s1 s2 :
    submit_answer s s1 -> submits n s1 s2 -> submits (S n) s s2.

(** The keys of a JSON object, in order. *)
Definition json_keys (d : json) : list pystr :=
  match d with JObject members => map fst members | _ => [] end.

(** ** Sample responses and a sample session *)

(** The superscript two, U+00B2: a digit for [str.isdigit], not a decimal
    digit. *)
Definition superscript_two : ascii := ascii_of_N 178.

(** A response of two digit-led lines without surrounding white space. *)
Definition two_questions : pystr :=
  str "1. What is overfitting?" ++ nl ++ str "2. Define recall.".

Definition good_depth : pystr :=
  str "Score: 8.5" ++ nl ++ str "Comment: Good depth".

Definition nice_then_score : pystr :=
  str "Comment: nice" ++ nl ++ str "Score: 7".

Definition both_on_one_line : pystr := str "Score: 5 Comment: hi".

(** A model that answers: two questions, then one evaluation. *)
Definition demo_env : environment :=
  {| question_chain := fun _ _ _ => Ok two_questions;
     eval_chain := fun _ _ => Ok good_depth;
     open_w := fun _ => Ok tt |}.

(** A model that cannot be reached. *)
Definition offline_env : environment :=
  {| question_chain := fun _ _ _ => Raise ModelError;
     eval_chain := fun _ _ => Raise ModelError;
     open_w := fun _ => Ok tt |}.

Definition demo_widgets (c : option button) (answer : pystr) : widgets :=
  {| field := str "Data Science"; tone := friendly; num_questions := 2;
     clicked := c; answer_box := fun _ => answer |}.

Definition demo_questions : list pystr :=
  [str "1. What is overfitting?"; str "2. Define recall."].

Definition demo_started : session_state := ready demo_questions [] [] 0.

Definition demo_evaluation : evaluation :=
  {| score := PyFloat (b64 17 (-1)); comment := str "Good depth" |}.

Definition demo_answered : session_state :=
  ready demo_questions [str "A fit to noise."] [demo_evaluation] 1.

Definition demo_completed : session_state :=
  ready demo_questions [str "A fit to noise."; str "TP / (TP + FN)"]
    [demo_evaluation; demo_evaluation] 2.

(** ** Notions for the further properties *)

(** The carriage return ['\r']. *)
Definition CR : ascii := ascii_of_N 13.

(** [sep.join(pieces)], the inverse the script never calls; it states what
    [split] keeps. *)
Fixpoint join (sep : pystr) (pieces : list pystr) : pystr :=
  match pieces with
  | [] => []
  | p :: rest =>
      match rest with
      | [] => p
      | _ :: _ => p ++ sep ++ join sep rest
      end
  end.

(** The same text with every line feed preceded by a carriage return, as a
    response with Windows line ends has it. *)
Definition crlf (text : pystr) : pystr :=
  flat_map (fun c => if Ascii.eqb c LF then [CR; LF] else [c]) text.

(** A carriage return after every line but the last. *)
Fixpoint cr_ended (lines : list pystr) : list pystr :=
  match lines with
  | [] => []
  | l :: rest =>
      match rest with
      | [] => [l]
      | _ :: _ => (l ++ [CR]) :: cr_ended rest
      end
  end.

(** What holds of a question in the store: trimmed, on one line, led by
    a digit. *)
Definition stored_question (q : pystr) : Prop :=
  strip q = q /\ ~ In LF q /\
  exists c rest, q = c :: rest /\ isdigit c = true /\ isspace c = false.

(** What holds of an evaluation in the store: the comment is trimmed and on
    one line, and an integer score is the fallback 0. *)
Definition stored_evaluation (e : evaluation) : Prop :=
  strip (comment e) = comment e /\ ~ In LF (comment e) /\
  forall z, score e = PyInt z -> z = 0%Z.

(** The evaluation the script records for a model response. *)
Definition evaluation_of (eval_text : pystr) : evaluation :=
  {| score := parse_score eval_text; comment := comment_of eval_text |}.

(** What holds of the content of a store. *)
Definition content_inv (s : session_state) : Prop :=
  (forall qs, questions s = Some qs -> Forall stored_question qs) /\
  (forall ans, answers s = Some ans -> Forall (fun a => strip a <> []) ans) /\
  (forall evs, evaluations s = Some evs -> Forall stored_evaluation evs).

(** How one execution can change an initialised store: not at all, by
    clearing it, or by appending one non-blank answer and the evaluation of
    a model response. *)
Definition moved (s s' : session_state) : Prop :=
  s' = s \/ s' = cleared \/
  exists qs ans evs n a r,
    s = ready qs ans evs n /\ strip a <> [] /\
    s' = ready qs (ans ++ [a]) (evs ++ [evaluation_of r]) (n + 1).

(** The characters a string that [float] accepts is made of: digits, white
    space, signs, point, underscore, exponent mark and the letters of
    [infinity] and [nan]. *)
Definition float_char (c : ascii) : bool :=
  (isdecimal c || isspace c
   || existsb (Ascii.eqb c) (str "+-._eE")
   || existsb (Ascii.eqb (lower c)) (str "infinitya"))%bool.

Definition float_ok (c : ascii) : Prop := float_char c = true.

(** A call of the hosted model. *)
Definition is_call (e : effect) : bool :=
  match e with
  | InvokeQuestionChain _ _ _ | InvokeEvalChain _ _ => true
  | _ => false
  end.

(** The model calls of an execution, in order. *)
Definition calls (t : list effect) : list effect := filter is_call t.



(* ===================================================================== *)
(** * Facts about the string primitives *)
(* ===================================================================== *)

Section StringFacts.

Lemma strip_prefix_app (p s rest : pystr) :
  strip_prefix p s = Some rest -> s = p ++ rest.
Proof.
  revert s; induction p as [|a p IH]; intros [|b s]; simpl; try congruence.
  destruct (Ascii.eqb_spec a b); [subst | discriminate].
  intros H; f_equal; auto.
Qed.

Lemma strip_prefix_self (p rest : pystr) :
  strip_prefix p (p ++ rest) = Some rest.
Proof.
  induction p as [|a p IH]; simpl; [reflexivity|].
  now rewrite Ascii.eqb_refl.
Qed.

Lemma partition_app (sep s pre post : pystr) :
  partition sep s = Some (pre, post) -> s = pre ++ sep ++ post.
Proof.
  revert pre post; induction s as [|c s IH]; intros pre post; simpl.
  - destruct (strip_prefix sep []) eqn:E; [|discriminate].
    intros H; inversion H; subst. now apply strip_prefix_app in E.
  - destruct (strip_prefix sep (c :: s)) eqn:E.
    + intros H; inversion H; subst. now apply strip_prefix_app in E.
    + destruct (partition sep s) as [[a b]|]; [|discriminate].
      intros H; inversion H; subst. simpl. f_equal. now apply IH.
Qed.

Lemma partition_length (sep s pre post : pystr) :
  partition sep s = Some (pre, post) ->
  length s = length pre + length sep + length post.
Proof.
  intros H. apply partition_app in H. subst.
  rewrite !length_app. lia.
Qed.

Lemma lstrip_lstripped (s : pystr) : lstripped (lstrip s).
Proof.
  induction s as [|c s IH]; simpl; [exact I|].
  destruct (isspace c) eqn:E; [exact IH | exact E].
Qed.

Lemma lstrip_id (s : pystr) : lstripped s -> lstrip s = s.
Proof.
  destruct s as [|c s]; simpl; [reflexivity|].
  now intros ->.
Qed.

(** [lstrip] removes a run of white space from the front. *)
Lemma lstrip_split (s : pystr) :
  exists ws, s = ws ++ lstrip s /\ forallb isspace ws = true.
Proof.
  induction s as [|c s (ws & E & W)]; simpl.
  - now exists [].
  - destruct (isspace c) eqn:C.
    + exists (c :: ws). simpl. rewrite C, W. split; [now f_equal | reflexivity].
    + now exists [].
Qed.

(** [rstrip] removes a run of white space from the back. *)
Lemma rstrip_split (s : pystr) :
  exists ws, s = rstrip s ++ ws /\ forallb isspace ws = true.
Proof.
  unfold rstrip.
  destruct (lstrip_split (rev s)) as (ws & E & W).
  exists (rev ws). split.
  - rewrite <- rev_app_distr, <- E. now rewrite rev_involutive.
  - rewrite forallb_forall in *. intros c Hc. apply W. now apply in_rev.
Qed.

Lemma rstrip_fixed (s : pystr) : rstrip (rstrip s) = rstrip s.
Proof.
  unfold rstrip. rewrite rev_involutive.
  now rewrite (lstrip_id _ (lstrip_lstripped (rev s))).
Qed.

(** The first character that [strip] leaves is the first one that [lstrip]
    leaves: the first character of the line that is not white space. *)
Lemma strip_head (q : pystr) (c : ascii) (r : pystr) :
  strip q = c :: r -> exists r', lstrip q = c :: r' /\ isspace c = false.
Proof.
  unfold strip. intros E.
  destruct (rstrip_split (lstrip q)) as (ws & H & _).
  rewrite E in H. simpl in H.
  exists (r ++ ws). split; [exact H|].
  pose proof (lstrip_lstripped q) as L. rewrite H in L. exact L.
Qed.

Lemma strip_lstripped (q : pystr) : lstripped (strip q).
Proof.
  destruct (strip q) as [|c r] eqn:E; simpl; [exact I|].
  now destruct (strip_head q c r E) as (_ & _ & H).
Qed.

(** Stripping twice is stripping once. *)
Lemma strip_idempotent (q : pystr) : strip (strip q) = strip q.
Proof.
  unfold strip at 1. rewrite (lstrip_id _ (strip_lstripped q)).
  unfold strip. apply rstrip_fixed.
Qed.

(** A string of white space strips to nothing. *)
Lemma lstrip_blank (s : pystr) : forallb isspace s = true -> lstrip s = [].
Proof.
  induction s as [|c s IH]; simpl; [reflexivity|].
  intros H. apply andb_prop in H as [-> H]. auto.
Qed.

Lemma strip_blank (s : pystr) : forallb isspace s = true -> strip s = [].
Proof.
  intros H. unfold strip. now rewrite (lstrip_blank s H).
Qed.

Lemma strip_empty_blank (s : pystr) :
  strip s = [] -> forallb isspace s = true.
Proof.
  unfold strip. intros E.
  destruct (rstrip_split (lstrip s)) as (ws & H & W).
  rewrite E in H. simpl in H.
  destruct (lstrip_split s) as (ws' & H' & W').
  rewrite H', H, forallb_app, W, W'. reflexivity.
Qed.

(** [partition] finds an occurrence, and the leftmost one. *)
Lemma partition_leftmost (sep s pre post : pystr) :
  partition sep s = Some (pre, post) ->
  forall pre' post', s = pre' ++ sep ++ post' ->
  List.length pre <= List.length pre'.
Proof.
  revert pre post. induction s as [|c s IH]; intros pre post; simpl.
  - destruct (strip_prefix sep []); [|discriminate].
    intros H; inversion H; subst. simpl. lia.
  - destruct (strip_prefix sep (c :: s)) eqn:E.
    + intros H; inversion H; subst. simpl. lia.
    + destruct (partition sep s) as [[a b]|] eqn:P; [|discriminate].
      intros H; inversion H; subst. intros [|c' pre'] post' D.
      * simpl in D. rewrite D, strip_prefix_self in E. discriminate.
      * simpl in D. inversion D; subst. simpl.
        apply le_n_S. eapply IH; reflexivity.
Qed.

Lemma partition_none (sep s : pystr) :
  partition sep s = None -> forall pre post, s <> pre ++ sep ++ post.
Proof.
  induction s as [|c s IH]; simpl.
  - destruct (strip_prefix sep []) eqn:E; [discriminate|].
    intros _ [|? ?] post D; [|discriminate].
    simpl in D. rewrite D, strip_prefix_self in E. discriminate.
  - destruct (strip_prefix sep (c :: s)) eqn:E; [discriminate|].
    destruct (partition sep s) as [[a b]|] eqn:P; [discriminate|].
    intros _ [|c' pre] post D.
    + simpl in D. rewrite D, strip_prefix_self in E. discriminate.
    + simpl in D. inversion D; subst. now apply (IH eq_refl pre post).
Qed.

(** [split] cuts at the leftmost occurrence and goes on with the rest. *)
Lemma split_unfold (a : ascii) (sep' s : pystr) :
  split (a :: sep') s =
  match partition (a :: sep') s with
  | Some (pre, post) => pre :: split (a :: sep') post
  | None => [s]
  end.
Proof.
  funelim (split (a :: sep') s).
  - match goal with E : partition _ _ = Some _ |- _ => now rewrite E end.
  - match goal with E : partition _ _ = None |- _ => now rewrite E end.
Qed.

End StringFacts.

(* ===================================================================== *)
(** * Facts about the parsers *)
(* ===================================================================== *)

Section ParserFacts.

Local Open Scope res_scope.

Lemma keep_question_digit_led (q : pystr) :
  keep_question q = Ok (digit_led q).
Proof.
  unfold keep_question, digit_led.
  destruct (strip q) as [|c r] eqn:E; simpl; [reflexivity|].
  destruct (strip_head q c r E) as (r' & -> & _). reflexivity.
Qed.

Lemma question_comprehension_ok (lines : list pystr) :
  question_comprehension lines = Ok (map strip (filter digit_led lines)).
Proof.
  induction lines as [|q lines IH]; simpl; [reflexivity|].
  rewrite keep_question_digit_led, IH. simpl.
  now destruct (digit_led q).
Qed.

Lemma parse_questions_ok (questions_text : pystr) :
  parse_questions questions_text = Ok (questions_of questions_text).
Proof. apply question_comprehension_ok. Qed.

Lemma split_second (a : ascii) (sep' line : pystr) :
  index (split (a :: sep') line) 1 =
  match segment_after (a :: sep') line with
  | Some seg => Ok seg
  | None => Raise IndexError
  end.
Proof.
  unfold segment_after. rewrite split_unfold.
  destruct (partition (a :: sep') line) as [[pre post]|]; [|reflexivity].
  rewrite split_unfold.
  destruct (partition (a :: sep') post) as [[mid rest]|]; reflexivity.
Qed.

Lemma index_filter_0 {A} (p : A -> bool) (l : list A) :
  index (filter p l) 0 =
  match find p l with Some x => Ok x | None => Raise IndexError end.
Proof.
  induction l as [|x l IH]; simpl; [reflexivity|].
  destruct (p x); [reflexivity | exact IH].
Qed.

Lemma contains_segment (sep line : pystr) :
  contains sep line = true -> exists seg, segment_after sep line = Some seg.
Proof.
  unfold contains, segment_after.
  destruct (partition sep line) as [[pre post]|]; [|discriminate].
  intros _. eexists; reflexivity.
Qed.

Lemma try_score_unfold (eval_text : pystr) :
  try_score eval_text =
  match first_line_with "Score:" eval_text with
  | Some line =>
      match segment_after (str "Score:") line with
      | Some seg => float (strip seg)
      | None => Raise IndexError
      end
  | None => Raise IndexError
  end.
Proof.
  unfold try_score, lines_with, first_line_with. rewrite index_filter_0.
  destruct (find _ _) as [line|]; cbn [res_bind]; [|reflexivity].
  change (str "Score:") with ("S"%char :: str "core:").
  rewrite split_second.
  destruct (segment_after _ line); reflexivity.
Qed.

(** Line 109 cannot raise: a line that contains the marker splits in two
    pieces at least. *)
Lemma parse_comment_ok (eval_text : pystr) :
  parse_comment eval_text = Ok (comment_of eval_text).
Proof.
  unfold parse_comment, comment_of, first_line_with, lines_with.
  pose proof (index_filter_0 (contains (str "Comment:")) (split nl eval_text))
    as H.
  destruct (filter _ _) as [|l ls] eqn:F.
  - simpl in H. destruct (find _ _); [discriminate | reflexivity].
  - rewrite H. destruct (find _ _) as [line|] eqn:E; [|discriminate].
    cbn [res_bind]. apply find_some in E as [_ C].
    destruct (contains_segment _ _ C) as (seg & S).
    change (str "Comment:") with ("C"%char :: str "omment:") in *.
    rewrite split_second, S. reflexivity.
Qed.

Lemma parse_evaluation_ok (eval_text : pystr) :
  parse_evaluation eval_text =
  Ok {| score := parse_score eval_text; comment := comment_of eval_text |}.
Proof.
  unfold parse_evaluation. now rewrite parse_comment_ok.
Qed.

End ParserFacts.

(* ===================================================================== *)
(** * Executions of the page *)
(* ===================================================================== *)

Arguments parse_questions : simpl never.
Arguments parse_evaluation : simpl never.
Arguments parse_score : simpl never.
Arguments questions_of : simpl never.
Arguments comment_of : simpl never.
Arguments strip : simpl never.
Arguments transcript_filename : simpl never.
Arguments transcript : simpl never.
Arguments str : simpl never.

Section Executions.

Variable env : environment.
Variable w : widgets.

Lemma start_block_spec (s : session_state) :
  start_block env w s =
  if starts w s then
    match question_chain env (field w) (tone w) (num_questions w) with
    | Ok text =>
        (inl tt, ready (questions_of text) [] [] 0,
         [Button StartInterview; ask w])
    | Raise e => (inr (Uncaught e), cleared, [Button StartInterview; ask w])
    end
  else (inl tt, s, [Button StartInterview]).
Proof.
  unfold starts, start_block, st_button, reset, lift,
    set_questions, set_answers, set_evaluations, set_current_q,
    bind, ret, emit, halt, get, put.
  destruct s as [qs a b c].
  destruct (clicked w) as [[]|], qs; cbn;
    try reflexivity;
    destruct (question_chain env _ _ _); cbn; try reflexivity;
    rewrite parse_questions_ok; reflexivity.
Qed.

Lemma exit_block_spec (s : session_state) :
  exit_block w s =
  if shown s then
    if pressed w ExitInterview
    then (inr RerunRequested, cleared, [Button ExitInterview])
    else (inl tt, s, [Button ExitInterview])
  else (inl tt, s, []).
Proof.
  unfold shown, pressed, exit_block, has_questions, st_button, reset,
    experimental_rerun,
    set_questions, set_answers, set_evaluations, set_current_q,
    bind, ret, emit, halt, get, put.
  destruct s as [[[|q qs]|] a b c]; cbn; try reflexivity.
  destruct (clicked w) as [[]|]; reflexivity.
Qed.

Lemma question_branch_spec (qs ans : list pystr) (evs : list evaluation)
  (n : nat) (q : pystr) :
  nth_error qs n = Some q ->
  let s := ready qs ans evs n in
  let answer := answer_box w n in
  question_branch env w n s =
  if pressed w (SubmitAnswer n) then
    if truthy (strip answer) then
      match eval_chain env q answer with
      | Ok eval_text =>
          (inr RerunRequested,
           ready qs (ans ++ [answer])
             (evs ++ [{| score := parse_score eval_text;
                         comment := comment_of eval_text |}]) (n + 1),
           question_widgets n q ++ [InvokeEvalChain q answer])
      | Raise e =>
          (inr (Uncaught e), s,
           question_widgets n q ++ [InvokeEvalChain q answer])
      end
    else
      (inl tt, s,
       question_widgets n q
       ++ [Warning (str "Please type an answer before submitting.")])
  else (inl tt, s, question_widgets n q).
Proof.
  intros Hq. unfold pressed, question_branch, st_button, attr, index, lift,
    experimental_rerun,
    set_questions, set_answers, set_evaluations, set_current_q,
    bind, ret, emit, halt, get, put.
  cbn. rewrite Hq. cbn.
  destruct (match clicked w with
            | Some c => button_eqb c (SubmitAnswer n) | None => false end);
    [|reflexivity].
  destruct (truthy (strip (answer_box w n))); [|reflexivity].
  cbn; rewrite ?Hq; cbn.
  destruct (eval_chain env q (answer_box w n)) as [eval_text|e];
    cbn; [|reflexivity].
  rewrite parse_evaluation_ok. reflexivity.
Qed.

Lemma report_spec (i : nat) (rows : list (pystr * pystr * evaluation))
  (s : session_state) :
  report i rows s = (inl tt, s, report_effects i rows).
Proof.
  revert i; induction rows as [|[[q a] e] rows IH]; intros i;
    [reflexivity|].
  cbn [report report_effects]. unfold bind, emit.
  now rewrite IH.
Qed.

Lemma completed_branch_spec (qs ans : list pystr) (evs : list evaluation)
  (n : nat) :
  let s := ready qs ans evs n in
  let filename := transcript_filename (field w) in
  completed_branch env w s =
  if pressed w SaveInterview then
    match open_w env filename with
    | Ok _ =>
        (inl tt, s,
         completed_widgets qs ans evs
         ++ [JsonDump filename (transcript w qs ans evs);
             SuccessSaved filename])
    | Raise e => (inr (Uncaught e), s, completed_widgets qs ans evs)
    end
  else (inl tt, s, completed_widgets qs ans evs).
Proof.
  unfold pressed, completed_widgets, completed_branch, st_button, attr, lift,
    bind, ret, emit, halt, get, put.
  cbn. rewrite report_spec. cbn.
  destruct (match clicked w with
            | Some c => button_eqb c SaveInterview | None => false end);
    cbn; [|reflexivity].
  destruct (open_w env (transcript_filename (field w))); cbn;
    rewrite <- ?app_assoc; reflexivity.
Qed.

Lemma interview_loop_spec (s : session_state) :
  interview_loop env w s =
  match questions s with
  | Some (q :: qs) =>
      if q_index_of s <? List.length (q :: qs)
      then question_branch env w (q_index_of s) s
      else completed_branch env w s
  | _ => (inl tt, s, [])
  end.
Proof.
  unfold interview_loop, q_index_of, has_questions, attr, bind, ret, get.
  destruct s as [[[|q qs]|] a b c]; cbn [questions current_q];
    try reflexivity.
  destruct (_ <? _).
  - destruct (question_branch _ _ _ _) as [[r s'] t]. reflexivity.
  - destruct (completed_branch _ _ _) as [[r s'] t]. reflexivity.
Qed.

(** The three blocks in sequence. *)
Lemma app_spec (s : session_state) :
  app env w s =
  match start_block env w s with
  | (inl _, s1, t1) =>
      match exit_block w s1 with
      | (inl _, s2, t2) =>
          let '(r, s3, t3) := interview_loop env w s2 in
          (r, s3, t1 ++ t2 ++ t3)
      | (inr e, s2, t2) => (inr e, s2, t1 ++ t2)
      end
  | (inr e, s1, t1) => (inr e, s1, t1)
  end.
Proof.
  unfold app, bind.
  destruct (start_block env w s) as [[[[]|e] s1] t1]; [|reflexivity].
  destruct (exit_block w s1) as [[[[]|e] s2] t2]; [|reflexivity].
  destruct (interview_loop env w s2) as [[r s3] t3]. reflexivity.
Qed.

End Executions.

(* ===================================================================== *)
(** * The session invariant *)
(* ===================================================================== *)

Lemma initialised_inv (s : session_state) : initialised s -> session_inv s.
Proof.
  intros (qs & ans & evs & n & -> & H). exact H.
Qed.

Lemma session_inv_cases (s : session_state) :
  session_inv s -> s = fresh \/ initialised s.
Proof.
  destruct s as [[qs|] [ans|] [evs|] [n|]]; cbn; try contradiction.
  - intros H. right. now exists qs, ans, evs, n.
  - now left.
Qed.

Lemma initialised_cleared : initialised cleared.
Proof.
  exists [], [], [], 0. cbn. repeat split; lia.
Qed.

Lemma initialised_started (qs : list pystr) : initialised (ready qs [] [] 0).
Proof.
  exists qs, [], [], 0. cbn. repeat split; lia.
Qed.

Section Invariant.

Variable env : environment.
Variable w : widgets.

(** Lines 77-145 keep an initialised store initialised, however they
    end. *)
Lemma exit_then_loop_inv (s1 : session_state) :
  initialised s1 ->
  match exit_block w s1 with
  | (inl _, s2, _) => initialised (snd (fst (interview_loop env w s2)))
  | (inr _, s2, _) => initialised s2
  end.
Proof.
  intros I. rewrite exit_block_spec.
  destruct (shown s1) eqn:Sh;
    [destruct (pressed w ExitInterview); [exact initialised_cleared|]|].
  all: rewrite interview_loop_spec.
  all: destruct I as (qs & ans & evs & n & -> & La & Le & Ln).
  all: cbn [questions ready].
  all: destruct qs as [|q qs]; [exact (ex_intro _ [] (ex_intro _ ans
         (ex_intro _ evs (ex_intro _ n (conj eq_refl (conj La (conj Le Ln)))))))|].
  all: change (q_index_of (ready (q :: qs) ans evs n)) with n.
  all: destruct (Nat.ltb_spec n (List.length (q :: qs))) as [Lt|Ge].
  all: try (rewrite completed_branch_spec;
            destruct (pressed w SaveInterview);
            [destruct (open_w env _)|]; cbn;
            now exists (q :: qs), ans, evs, n).
  all: destruct (nth_error (q :: qs) n) as [qn|] eqn:Hq;
         [|apply nth_error_None in Hq; lia].
  all: rewrite (question_branch_spec env w _ ans evs n qn Hq).
  all: destruct (pressed w (SubmitAnswer n));
         [destruct (truthy _); [destruct (eval_chain env _ _)|]|]; cbn;
         try (now exists (q :: qs), ans, evs, n).
  all: eexists (q :: qs), _, _, _; split; [reflexivity|];
         rewrite !length_app; cbn in *; lia.
Qed.

(** Every execution leaves an initialised store. *)
Lemma run_initialises (s : session_state) :
  session_inv s -> initialised (store (run env w s)).
Proof.
  intros I. unfold run. rewrite app_spec, start_block_spec.
  assert (T : forall s1 t1, initialised s1 ->
    initialised (store
      (let '(r, s', t) :=
         match exit_block w s1 with
         | (inl _, s2, t2) =>
             let '(r, s3, t3) := interview_loop env w s2 in
             (r, s3, t1 ++ t2 ++ t3)
         | (inr e, s2, t2) => (inr e, s2, t1 ++ t2)
         end in
       {| stopped := match r with inl _ => None | inr e => Some e end;
          store := s'; trace := t |}))).
  { intros s1 t1 I1. pose proof (exit_then_loop_inv s1 I1) as H.
    destruct (exit_block w s1) as [[[[]|e] s2] t2]; [|exact H].
    destruct (interview_loop env w s2) as [[r s3] t3]. exact H. }
  destruct (starts w s) eqn:St.
  - destruct (question_chain env _ _ _) as [text|e].
    + apply T, initialised_started.
    + exact initialised_cleared.
  - apply T. destruct (session_inv_cases s I) as [->|H]; [|exact H].
    unfold starts in St. cbn in St. rewrite orb_true_r in St. discriminate.
Qed.

Lemma run_preserves (s : session_state) :
  session_inv s -> session_inv (store (run env w s)).
Proof.
  intros I. now apply initialised_inv, run_initialises.
Qed.

End Invariant.

Lemma reachable_inv (s : session_state) : reachable s -> session_inv s.
Proof.
  induction 1 as [|env w s _ IH]; [exact I|].
  now apply run_preserves.
Qed.

(* ===================================================================== *)
(** * The transitions, execution by execution *)
(* ===================================================================== *)

Section Transitions.

Variable env : environment.
Variable w : widgets.

(** The start block ran and the model call failed: the exception leaves the
    script, after the store was cleared. *)
Lemma run_start_failed (s : session_state) (e : exn) :
  starts w s = true ->
  question_chain env (field w) (tone w) (num_questions w) = Raise e ->
  run env w s =
  {| stopped := Some (Uncaught e);
     store := cleared;
     trace := [Button StartInterview; ask w] |}.
Proof.
  intros St Q. unfold run. rewrite app_spec, start_block_spec, St, Q.
  reflexivity.
Qed.

(** A press on the start button, or the first load of the page, when the
    model answers. *)
Lemma run_start (s : session_state) (text : pystr) :
  clicked w = Some StartInterview \/
  (clicked w = None /\ questions s = None) ->
  question_chain env (field w) (tone w) (num_questions w) = Ok text ->
  run env w s =
  {| stopped := None;
     store := ready (questions_of text) [] [] 0;
     trace := [Button StartInterview; ask w]
              ++ first_question (questions_of text) |}.
Proof.
  intros Ev Q.
  assert (St : starts w s = true).
  { unfold starts. destruct Ev as [-> | [_ ->]]; [reflexivity|].
    apply orb_true_r. }
  assert (Pe : pressed w ExitInterview = false).
  { unfold pressed. now destruct Ev as [-> | [-> _]]. }
  assert (Ps : pressed w (SubmitAnswer 0) = false).
  { unfold pressed. now destruct Ev as [-> | [-> _]]. }
  unfold run. rewrite app_spec, start_block_spec, St, Q.
  cbv beta iota. rewrite exit_block_spec.
  destruct (questions_of text) as [|q qs] eqn:E; [reflexivity|].
  cbn [shown questions ready]. rewrite Pe.
  cbv beta iota. rewrite interview_loop_spec.
  cbn [questions ready]. change (q_index_of _) with 0.
  cbn [Nat.ltb Nat.leb List.length].
  rewrite (question_branch_spec env w (q :: qs) [] [] 0 q eq_refl), Ps.
  reflexivity.
Qed.

(** A press on the exit button. *)
Lemma run_exit (q : pystr) (qs ans : list pystr) (evs : list evaluation)
  (n : nat) :
  clicked w = Some ExitInterview ->
  run env w (ready (q :: qs) ans evs n) =
  {| stopped := Some RerunRequested;
     store := cleared;
     trace := [Button StartInterview; Button ExitInterview] |}.
Proof.
  intros C. unfold run. rewrite app_spec, start_block_spec.
  unfold starts. rewrite C. cbn [questions ready orb].
  cbv beta iota. rewrite exit_block_spec. unfold pressed. rewrite C. reflexivity.
Qed.

(** With no question list the page shows its start button and nothing
    else. *)
Lemma run_without_questions (ans : list pystr) (evs : list evaluation)
  (n : nat) :
  clicked w <> Some StartInterview ->
  run env w (ready [] ans evs n) =
  {| stopped := None;
     store := ready [] ans evs n;
     trace := [Button StartInterview] |}.
Proof.
  intros C. unfold run. rewrite app_spec, start_block_spec.
  assert (St : starts w (ready [] ans evs n) = false).
  { unfold starts. destruct (clicked w) as [[]|]; cbn; congruence. }
  rewrite St. reflexivity.
Qed.

Lemma run_submit (qs ans : list pystr) (evs : list evaluation) (n : nat)
  (q : pystr) :
  nth_error qs n = Some q ->
  clicked w = Some (SubmitAnswer n) ->
  run env w (ready qs ans evs n) = submit_outcome env w qs ans evs n q.
Proof.
  intros Hq C. unfold run, submit_outcome.
  rewrite app_spec, start_block_spec.
  unfold starts. rewrite C. cbn [questions ready orb].
  cbv beta iota. rewrite exit_block_spec.
  assert (Lt : n < List.length qs) by (apply nth_error_Some; congruence).
  destruct qs as [|q0 qs]; [cbn in Lt; lia|].
  cbn [shown questions ready]. unfold pressed at 1. rewrite C.
  cbn [button_eqb]. cbv beta iota. rewrite interview_loop_spec.
  cbn [questions ready]. change (q_index_of _) with n.
  apply Nat.ltb_lt in Lt. rewrite Lt.
  rewrite (question_branch_spec env w _ ans evs n q Hq).
  unfold pressed. rewrite C. cbn [button_eqb]. rewrite Nat.eqb_refl.
  destruct (truthy _); [destruct (eval_chain env _ _)|]; reflexivity.
Qed.

(** On a store with a question on display, an execution caused by anything
    but the start button, the exit button and that question's submit
    button changes nothing. *)
Lemma run_question_idle (qs ans : list pystr) (evs : list evaluation)
  (n : nat) (q : pystr) :
  nth_error qs n = Some q ->
  clicked w <> Some StartInterview ->
  clicked w <> Some ExitInterview ->
  clicked w <> Some (SubmitAnswer n) ->
  run env w (ready qs ans evs n) =
  {| stopped := None;
     store := ready qs ans evs n;
     trace := [Button StartInterview; Button ExitInterview]
              ++ question_widgets n q |}.
Proof.
  intros Hq C1 C2 C3. unfold run.
  rewrite app_spec, start_block_spec.
  assert (St : starts w (ready qs ans evs n) = false).
  { unfold starts. destruct (clicked w) as [[]|]; cbn; congruence. }
  assert (Pe : pressed w ExitInterview = false).
  { unfold pressed. destruct (clicked w) as [[]|]; cbn; congruence. }
  assert (Ps : pressed w (SubmitAnswer n) = false).
  { unfold pressed. destruct (clicked w) as [[| |k|]|]; cbn; try congruence.
    destruct (Nat.eqb_spec k n); congruence. }
  rewrite St. cbv beta iota. rewrite exit_block_spec.
  assert (Lt : n < List.length qs) by (apply nth_error_Some; congruence).
  destruct qs as [|q0 qs]; [cbn in Lt; lia|].
  cbn [shown questions ready]. rewrite Pe.
  cbv beta iota. rewrite interview_loop_spec.
  cbn [questions ready]. change (q_index_of _) with n.
  apply Nat.ltb_lt in Lt. rewrite Lt.
  rewrite (question_branch_spec env w _ ans evs n q Hq), Ps.
  reflexivity.
Qed.

Lemma run_completed (qs ans : list pystr) (evs : list evaluation) (n : nat) :
  qs <> [] ->
  List.length qs <= n ->
  clicked w <> Some StartInterview ->
  clicked w <> Some ExitInterview ->
  run env w (ready qs ans evs n) = completed_outcome env w qs ans evs n.
Proof.
  intros Hne Ge C1 C2. unfold run, completed_outcome.
  rewrite app_spec, start_block_spec.
  assert (St : starts w (ready qs ans evs n) = false).
  { unfold starts. destruct (clicked w) as [[]|]; cbn; congruence. }
  assert (Pe : pressed w ExitInterview = false).
  { unfold pressed. destruct (clicked w) as [[]|]; cbn; congruence. }
  rewrite St. cbv beta iota. rewrite exit_block_spec.
  destruct qs as [|q0 qs]; [congruence|].
  cbn [shown questions ready]. rewrite Pe.
  cbv beta iota. rewrite interview_loop_spec.
  cbn [questions ready]. change (q_index_of _) with n.
  apply Nat.ltb_ge in Ge. rewrite Ge.
  rewrite completed_branch_spec.
  destruct (pressed w SaveInterview); [destruct (open_w env _)|];
    cbn; rewrite <- ?app_assoc; reflexivity.
Qed.

End Transitions.

(* ===================================================================== *)
(** * The question list *)
(* ===================================================================== *)

Lemma isdecimal_isdigit (c : ascii) : isdecimal c = true -> isdigit c = true.
Proof.
  unfold isdigit. now intros ->.
Qed.

Lemma digit_led_iff (line : pystr) :
  digit_led line = true <->
  exists c rest rest',
    strip line = c :: rest /\ lstrip line = c :: rest' /\
    isspace c = false /\ isdigit c = true.
Proof.
  unfold digit_led. split.
  - destruct (strip line) as [|c rest] eqn:E; [discriminate|].
    intros D. destruct (strip_head line c rest E) as (rest' & L & S).
    now exists c, rest, rest'.
  - now intros (c & rest & _ & -> & _ & _ & D).
Qed.

Lemma questions_of_digit_led (response : pystr) :
  Forall (fun q => exists c rest, strip q = c :: rest /\ isdigit c = true)
    (questions_of response).
Proof.
  unfold questions_of. apply Forall_forall. intros q Hq.
  apply in_map_iff in Hq as (line & <- & Hl).
  apply filter_In in Hl as [_ D].
  rewrite strip_idempotent.
  apply digit_led_iff in D as (c & rest & _ & E & _ & _ & Dc).
  now exists c, rest.
Qed.

Lemma questions_of_length (response : pystr) :
  List.length (questions_of response) <= List.length (split nl response).
Proof.
  unfold questions_of. rewrite length_map. apply filter_length_le.
Qed.

(** C2, as the script has it.  For every model response the question list
    is computed without error; a line of the response (split at line feeds)
    is kept if and only if its trimmed text is non-empty and begins with a
    character [str.isdigit] accepts, which is the first character of the
    line that is not white space; what is stored for a kept line is its
    trimmed text (leading marker included), in the order of the lines; the
    list is no longer than the number of lines and each element, trimmed,
    begins with a digit.  On a response whose lines carry no surrounding
    white space and no digit other than ['0'..'9'] in front, this is the
    list of the specification: the digit-led lines verbatim. *)
Theorem question_list_parsing (response : pystr) :
  let lines := split nl response in
  parse_questions response = Ok (map strip (filter digit_led lines)) /\
  (forall line,
     digit_led line = true <->
     exists c rest rest',
       strip line = c :: rest /\ lstrip line = c :: rest' /\
       isspace c = false /\ isdigit c = true) /\
  List.length (questions_of response) <= List.length lines /\
  Forall (fun q => exists c rest, strip q = c :: rest /\ isdigit c = true)
    (questions_of response) /\
  ((forall line, In line lines ->
      strip line = line /\ digit_led line = Spec.keeps line) ->
   questions_of response = Spec.kept_lines response).
Proof.
  cbv zeta. split; [apply parse_questions_ok|].
  split; [apply digit_led_iff|].
  split; [apply questions_of_length|].
  split; [apply questions_of_digit_led|].
  intros H. unfold questions_of, Spec.kept_lines.
  induction (split nl response) as [|l ls IH]; [reflexivity|].
  cbn [filter]. destruct (H l (or_introl eq_refl)) as [St ->].
  rewrite <- IH by (intros x Hx; apply H; now right).
  destruct (Spec.keeps l); cbn [map]; [now rewrite St | reflexivity].
Qed.

Lemma question_list_parsing_witness :
  questions_of two_questions = Spec.kept_lines two_questions.
Proof.
  apply (question_list_parsing two_questions).
  intros line H. vm_compute in H.
  destruct H as [<- | [<- | []]]; vm_compute; split; reflexivity.
Defined.

(** C2 as stated fails on the script: an indented line is stored without
    its indentation, not verbatim, and a line led by a superscript digit is
    kept although its first character is no decimal digit. *)
Lemma question_list_parsing_counterexample :
  parse_questions (str "  1. Define recall.")
    <> Ok (Spec.kept_lines (str "  1. Define recall.")) /\
  parse_questions (str "  1. Define recall.") = Ok [str "1. Define recall."] /\
  parse_questions [superscript_two] = Ok [[superscript_two]] /\
  isdecimal superscript_two = false.
Proof.
  vm_compute. repeat split; try reflexivity. discriminate.
Qed.

(* ===================================================================== *)
(** * The evaluation *)
(* ===================================================================== *)

Section FirstLine.

Variable p : pystr -> bool.

Lemma find_none_Forall (l : list pystr) :
  Forall (fun x => p x = false) l -> find p l = None.
Proof.
  induction 1 as [|x l Hx _ IH]; cbn; [reflexivity|].
  now rewrite Hx.
Qed.

Lemma find_first (before after : list pystr) (x : pystr) :
  Forall (fun y => p y = false) before -> p x = true ->
  find p (before ++ x :: after) = Some x.
Proof.
  induction 1 as [|y l Hy _ IH]; cbn; intros Hx.
  - now rewrite Hx.
  - rewrite Hy. auto.
Qed.

End FirstLine.

Lemma segment_after_partition (marker line pre post : pystr) :
  partition marker line = Some (pre, post) ->
  segment_after marker line = Some (field_text marker post).
Proof.
  unfold segment_after, field_text. now intros ->.
Qed.

Lemma field_text_whole (marker post : pystr) :
  contains marker post = false -> field_text marker post = post.
Proof.
  unfold contains, field_text.
  now destruct (partition marker post) as [[]|].
Qed.

Lemma parse_score_unfold (eval_text : pystr) :
  parse_score eval_text =
  match first_line_with "Score:" eval_text with
  | Some line =>
      match segment_after (str "Score:") line with
      | Some seg => score_from seg
      | None => PyInt 0
      end
  | None => PyInt 0
  end.
Proof.
  unfold parse_score, score_from. rewrite try_score_unfold.
  destruct (first_line_with _ _) as [line|]; [|reflexivity].
  destruct (segment_after _ line); reflexivity.
Qed.

(** C3, as the script has it.  For every evaluation response: when no line
    contains [Score:] the score is the integer 0; otherwise the first line
    that contains it is cut at its leftmost occurrence, and the score is
    [float] of the trimmed text between that occurrence and the next
    occurrence of [Score:] on the line (the end of the line when there is
    none), or 0 when [float] raises.  When the marker occurs once on the
    line this is the specification's score.  The response
    ["Score: 8.5\nComment: Good depth"] has score 8.5. *)
Theorem score_extraction (eval_text : pystr) :
  let marker := str "Score:" in
  let lines := split nl eval_text in
  (Forall (fun l => contains marker l = false) lines ->
   parse_score eval_text = PyInt 0) /\
  (forall before line after,
     lines = before ++ line :: after ->
     Forall (fun l => contains marker l = false) before ->
     contains marker line = true ->
     exists pre post,
       partition marker line = Some (pre, post) /\
       parse_score eval_text = score_from (field_text marker post) /\
       (contains marker post = false ->
        parse_score eval_text = score_from post /\
        parse_score eval_text = Spec.score_of eval_text)) /\
  parse_score good_depth = PyFloat (b64 17 (-1)).
Proof.
  cbv zeta. split; [|split].
  - intros H. rewrite parse_score_unfold. unfold first_line_with.
    now rewrite (find_none_Forall _ _ H).
  - intros before line after E B C.
    assert (F : first_line_with "Score:" eval_text = Some line).
    { unfold first_line_with. rewrite E. now apply find_first. }
    unfold contains in C.
    destruct (partition (str "Score:") line) as [[pre post]|] eqn:P;
      [|discriminate].
    exists pre, post. split; [reflexivity|].
    rewrite parse_score_unfold, F, (segment_after_partition _ _ _ _ P).
    split; [reflexivity|].
    intros N. rewrite (field_text_whole _ _ N). split; [reflexivity|].
    unfold Spec.score_of, Spec.remainder. now rewrite F, P.
  - vm_compute. reflexivity.
Qed.

Lemma score_extraction_witness :
  exists pre post,
    partition (str "Score:") (str "Score: 8.5") = Some (pre, post) /\
    parse_score good_depth = score_from (field_text (str "Score:") post) /\
    (contains (str "Score:") post = false ->
     parse_score good_depth = score_from post /\
     parse_score good_depth = Spec.score_of good_depth).
Proof.
  apply (proj1 (proj2 (score_extraction good_depth))
           [] (str "Score: 8.5") [str "Comment: Good depth"]).
  - vm_compute. reflexivity.
  - constructor.
  - vm_compute. reflexivity.
Defined.

(** C3 as stated fails on the script: with a second [Score:] on the line the
    script reads the number before it, where the remainder after the first
    occurrence is no number. *)
Lemma score_extraction_counterexample :
  parse_score (str "Score: 5 Score: 6")
    <> Spec.score_of (str "Score: 5 Score: 6") /\
  parse_score (str "Score: 5 Score: 6") = PyFloat (b64 5 0) /\
  Spec.score_of (str "Score: 5 Score: 6") = PyInt 0.
Proof.
  vm_compute. repeat split; try reflexivity. discriminate.
Qed.

Lemma comment_of_unfold (eval_text : pystr) :
  comment_of eval_text =
  match first_line_with "Comment:" eval_text with
  | Some line =>
      match segment_after (str "Comment:") line with
      | Some seg => strip seg
      | None => []
      end
  | None => []
  end.
Proof. reflexivity. Qed.

(** C4, as the script has it.  For every evaluation response the comment is
    computed without error: it is empty when no line contains [Comment:];
    otherwise the first line that contains it is cut at its leftmost
    occurrence and the comment is the trimmed text between that occurrence
    and the next occurrence of [Comment:] on the line (the end of the line
    when there is none), which is the specification's comment when the
    marker occurs once.  The two fields are computed apart: the evaluation
    always carries both, whatever became of the other; the comment depends
    on the response only through its first [Comment:] line and the score
    only through its first [Score:] line, so their order is immaterial.
    The response ["Comment: nice\nScore: 7"] gives score 7 and comment
    ["nice"]. *)
Theorem comment_extraction (eval_text : pystr) :
  let marker := str "Comment:" in
  let lines := split nl eval_text in
  parse_comment eval_text = Ok (comment_of eval_text) /\
  (Forall (fun l => contains marker l = false) lines ->
   comment_of eval_text = []) /\
  (forall before line after,
     lines = before ++ line :: after ->
     Forall (fun l => contains marker l = false) before ->
     contains marker line = true ->
     exists pre post,
       partition marker line = Some (pre, post) /\
       comment_of eval_text = strip (field_text marker post) /\
       (contains marker post = false ->
        comment_of eval_text = strip post /\
        comment_of eval_text = Spec.comment_text eval_text)) /\
  parse_evaluation eval_text =
    Ok {| score := parse_score eval_text; comment := comment_of eval_text |} /\
  (forall other,
     first_line_with "Comment:" other = first_line_with "Comment:" eval_text ->
     parse_comment other = parse_comment eval_text) /\
  (forall other,
     first_line_with "Score:" other = first_line_with "Score:" eval_text ->
     parse_score other = parse_score eval_text) /\
  parse_evaluation nice_then_score =
    Ok {| score := PyFloat (b64 7 0); comment := str "nice" |}.
Proof.
  cbv zeta. split; [apply parse_comment_ok|].
  split; [|split; [|split; [apply parse_evaluation_ok|split; [|split]]]].
  - intros H. rewrite comment_of_unfold. unfold first_line_with.
    now rewrite (find_none_Forall _ _ H).
  - intros before line after E B C.
    assert (F : first_line_with "Comment:" eval_text = Some line).
    { unfold first_line_with. rewrite E. now apply find_first. }
    unfold contains in C.
    destruct (partition (str "Comment:") line) as [[pre post]|] eqn:P;
      [|discriminate].
    exists pre, post. split; [reflexivity|].
    rewrite comment_of_unfold, F, (segment_after_partition _ _ _ _ P).
    split; [reflexivity|].
    intros N. rewrite (field_text_whole _ _ N). split; [reflexivity|].
    unfold Spec.comment_text, Spec.remainder. now rewrite F, P.
  - intros other H. rewrite !parse_comment_ok, !comment_of_unfold.
    now rewrite H.
  - intros other H. rewrite !parse_score_unfold. now rewrite H.
  - vm_compute. reflexivity.
Qed.

Lemma comment_extraction_witness :
  exists pre post,
    partition (str "Comment:") (str "Comment: nice") = Some (pre, post) /\
    comment_of nice_then_score = strip (field_text (str "Comment:") post) /\
    (contains (str "Comment:") post = false ->
     comment_of nice_then_score = strip post /\
     comment_of nice_then_score = Spec.comment_text nice_then_score).
Proof.
  apply (proj1 (proj2 (proj2 (comment_extraction nice_then_score)))
           [] (str "Comment: nice") [str "Score: 7"]).
  - vm_compute. reflexivity.
  - constructor.
  - vm_compute. reflexivity.
Defined.

(** C4 as stated fails on the script: with a second [Comment:] on the line
    the script keeps the text before it, not the whole remainder. *)
Lemma comment_extraction_counterexample :
  parse_comment (str "Comment: clear Comment: concise")
    <> Ok (Spec.comment_text (str "Comment: clear Comment: concise")) /\
  parse_comment (str "Comment: clear Comment: concise") = Ok (str "clear") /\
  Spec.comment_text (str "Comment: clear Comment: concise")
  = str "clear Comment: concise".
Proof.
  vm_compute. repeat split; try reflexivity. discriminate.
Qed.

(* ===================================================================== *)
(** * The session state machine *)
(* ===================================================================== *)

Lemma awaiting_ready (s : session_state) (i : nat) :
  session_inv s -> phase_of s = AWAITING_ANSWER i ->
  exists qs ans evs q,
    s = ready qs ans evs i /\ nth_error qs i = Some q /\
    List.length ans = i /\ List.length evs = i.
Proof.
  intros I P. destruct (session_inv_cases s I) as [->|H]; [discriminate|].
  destruct H as (qs & ans & evs & n & -> & La & Le & Ln).
  unfold phase_of in P. cbn [questions current_q ready] in P.
  destruct qs as [|q0 qs]; [discriminate|].
  destruct (Nat.ltb_spec n (List.length (q0 :: qs))) as [Lt|]; [|discriminate].
  inversion P; subst i.
  destruct (nth_error (q0 :: qs) n) as [q|] eqn:Hq;
    [|apply nth_error_None in Hq; lia].
  now exists (q0 :: qs), ans, evs, q.
Qed.

Lemma completed_ready (s : session_state) :
  session_inv s -> phase_of s = COMPLETED ->
  exists qs ans evs,
    s = ready qs ans evs (List.length qs) /\ qs <> [] /\
    List.length ans = List.length qs /\ List.length evs = List.length qs.
Proof.
  intros I P. destruct (session_inv_cases s I) as [->|H]; [discriminate|].
  destruct H as (qs & ans & evs & n & -> & La & Le & Ln).
  unfold phase_of in P. cbn [questions current_q ready] in P.
  destruct qs as [|q0 qs]; [discriminate|].
  destruct (Nat.ltb_spec n (List.length (q0 :: qs))) as [|Ge]; [discriminate|].
  assert (n = List.length (q0 :: qs)) as -> by lia.
  exists (q0 :: qs), ans, evs. repeat split; try assumption. discriminate.
Qed.

Lemma phase_of_ready (qs ans : list pystr) (evs : list evaluation) (n : nat) :
  phase_of (ready qs ans evs n) =
  match qs with
  | [] => NOT_STARTED
  | _ :: _ => if n <? List.length qs then AWAITING_ANSWER n else COMPLETED
  end.
Proof. now destruct qs. Qed.

(** An execution no button caused leaves an initialised store as it is. *)
Lemma run_unclicked (env : environment) (w : widgets) (s : session_state) :
  initialised s ->
  store (run env (unclicked w) s) = s /\
  stopped (run env (unclicked w) s) = None.
Proof.
  intros (qs & ans & evs & n & -> & La & Le & Ln).
  destruct qs as [|q0 qs].
  - rewrite run_without_questions; [now split | discriminate].
  - destruct (Nat.ltb_spec n (List.length (q0 :: qs))) as [Lt|Ge].
    + destruct (nth_error (q0 :: qs) n) as [q|] eqn:Hq;
        [|apply nth_error_None in Hq; lia].
      rewrite (run_question_idle env (unclicked w) _ ans evs n q Hq);
        try discriminate.
      now split.
    + rewrite run_completed; try discriminate; try assumption.
      unfold completed_outcome, pressed. cbn. now split.
Qed.

(** The submit button on the question on display, with a non-blank answer
    and an evaluator that returns: the answer and its evaluation are
    appended and the index moves on. *)
Lemma interact_submit (env : environment) (w : widgets)
  (qs ans : list pystr) (evs : list evaluation) (n : nat)
  (q eval_text : pystr) :
  List.length ans = n -> List.length evs = n ->
  nth_error qs n = Some q ->
  clicked w = Some (SubmitAnswer n) ->
  truthy (strip (answer_box w n)) = true ->
  eval_chain env q (answer_box w n) = Ok eval_text ->
  store (interact env w (ready qs ans evs n)) =
    ready qs (ans ++ [answer_box w n])
      (evs ++ [{| score := parse_score eval_text;
                  comment := comment_of eval_text |}]) (n + 1) /\
  stopped (interact env w (ready qs ans evs n)) = None.
Proof.
  intros La Le Hq C T E. unfold interact.
  rewrite (run_submit env w qs ans evs n q Hq C).
  unfold submit_outcome. rewrite T, E. cbn [stopped store trace].
  apply run_unclicked.
  assert (n < List.length qs) by (apply nth_error_Some; congruence).
  eexists _, _, _, _. split; [reflexivity|].
  rewrite !length_app. cbn. lia.
Qed.

Lemma submits_ready (n : nat) :
  forall qs ans evs k s',
    List.length ans = k -> List.length evs = k -> k <= List.length qs ->
    submits n (ready qs ans evs k) s' ->
    exists ans' evs',
      s' = ready qs ans' evs' (k + n) /\
      List.length ans' = k + n /\ List.length evs' = k + n /\
      k + n <= List.length qs.
Proof.
  induction n as [|n IH]; intros qs ans evs k s' La Le Lk H.
  - inversion H; subst. exists ans, evs. rewrite Nat.add_0_r.
    repeat split; try assumption; reflexivity.
  - inversion H as [|n' s0 s1 s2 Hs Hr]; subst.
    inversion Hs as [env w qs' ans' evs' k' q eval_text Hq C T E R1 R2].
    subst qs' ans' evs' k'.
    destruct (interact_submit env w qs ans evs (List.length ans) q eval_text
                eq_refl Le Hq C T E) as [St _].
    rewrite St in R2. subst s1.
    assert (List.length ans < List.length qs)
      by (apply nth_error_Some; congruence).
    apply IH in Hr; [|rewrite ?length_app; cbn; lia ..].
    destruct Hr as (ans' & evs' & -> & La' & Le' & Lk').
    exists ans', evs'. replace (List.length ans + S n)
      with (List.length ans + 1 + n) by lia.
    now repeat split.
Qed.

(** ** A session to try the page on *)

Lemma demo_start :
  store (run demo_env (demo_widgets None []) fresh) = demo_started.
Proof. vm_compute. reflexivity. Defined.

Lemma demo_first_answer :
  store (interact demo_env
           (demo_widgets (Some (SubmitAnswer 0)) (str "A fit to noise."))
           demo_started)
  = demo_answered.
Proof. vm_compute. reflexivity. Defined.

Lemma demo_second_answer :
  store (interact demo_env
           (demo_widgets (Some (SubmitAnswer 1)) (str "TP / (TP + FN)"))
           demo_answered)
  = demo_completed.
Proof. vm_compute. reflexivity. Defined.

Lemma reachable_interact (env : environment) (w : widgets)
  (s : session_state) :
  reachable s -> reachable (store (interact env w s)).
Proof.
  intros R. unfold interact.
  destruct (stopped (run env w s)) as [[e|]|] eqn:E;
    try (now apply reach_run).
  cbn [store]. now apply reach_run, reach_run.
Defined.

Lemma reachable_demo_started : reachable demo_started.
Proof.
  rewrite <- demo_start. apply reach_run, reach_fresh.
Defined.

Lemma reachable_demo_answered : reachable demo_answered.
Proof.
  rewrite <- demo_first_answer.
  apply reachable_interact, reachable_demo_started.
Defined.

Lemma reachable_demo_completed : reachable demo_completed.
Proof.
  rewrite <- demo_second_answer.
  apply reachable_interact, reachable_demo_answered.
Defined.

Lemma submit_demo_first : submit_answer demo_started demo_answered.
Proof.
  rewrite <- demo_first_answer.
  apply (submit_answer_ok demo_env
           (demo_widgets (Some (SubmitAnswer 0)) (str "A fit to noise."))
           demo_questions [] [] 0 (str "1. What is overfitting?") good_depth);
    reflexivity.
Defined.

(** ** C1: the invariant *)

(** C1.  Every store a session can reach satisfies
    [len(answers) == len(evaluations) == current_q <= len(questions)], and
    every execution of the page preserves it and leaves all four keys in
    the store: a start stores the generated
    questions over empty answers and evaluations and index 0, a submitted
    answer appends to both lists and moves the index by one, an exit clears
    everything.  After [n] answered questions from the first question on
    display, with [n < len(questions)], question [n] is on display and both
    lists have length [n]. *)
Theorem session_invariant :
  (forall s, reachable s -> session_inv s) /\
  (forall env w s, session_inv s -> session_inv (store (run env w s))) /\
  (forall env w s, reachable s -> initialised (store (run env w s))) /\
  (forall env w s text,
     clicked w = Some StartInterview ->
     question_chain env (field w) (tone w) (num_questions w) = Ok text ->
     store (run env w s) = ready (questions_of text) [] [] 0) /\
  (forall env w qs ans evs n q text,
     nth_error qs n = Some q ->
     clicked w = Some (SubmitAnswer n) ->
     truthy (strip (answer_box w n)) = true ->
     eval_chain env q (answer_box w n) = Ok text ->
     store (run env w (ready qs ans evs n)) =
       ready qs (ans ++ [answer_box w n])
         (evs ++ [{| score := parse_score text;
                     comment := comment_of text |}]) (n + 1)) /\
  (forall env w q qs ans evs n,
     clicked w = Some ExitInterview ->
     store (run env w (ready (q :: qs) ans evs n)) = cleared) /\
  (forall n s s' qs,
     session_inv s -> phase_of s = AWAITING_ANSWER 0 ->
     questions s = Some qs -> n < List.length qs ->
     submits n s s' ->
     phase_of s' = AWAITING_ANSWER n /\
     questions s' = Some qs /\
     exists ans evs,
       answers s' = Some ans /\ evaluations s' = Some evs /\
       current_q s' = Some n /\
       List.length ans = n /\ List.length evs = n).
Proof.
  split; [exact reachable_inv|].
  split; [exact run_preserves|].
  split; [|split; [|split; [|split]]].
  - intros env w s R. now apply run_initialises, reachable_inv.
  - intros env w s text C Q.
    now rewrite (run_start env w s text (or_introl C) Q).
  - intros env w qs ans evs n q text Hq C T E.
    rewrite (run_submit env w qs ans evs n q Hq C).
    unfold submit_outcome. now rewrite T, E.
  - intros env w q qs ans evs n C. now rewrite run_exit.
  - intros n s s' qs I P Q Lt H.
    destruct (awaiting_ready s 0 I P) as (qs0 & ans & evs & q & -> & _ & La & Le).
    cbn in Q. inversion Q; subst qs0.
    apply submits_ready in H; [|assumption || lia ..].
    destruct H as (ans' & evs' & -> & La' & Le' & _).
    cbn [Nat.add] in *. rewrite phase_of_ready.
    destruct qs as [|q0 qs]; [cbn in Lt; lia|].
    apply Nat.ltb_lt in Lt. rewrite Lt.
    repeat split. now exists ans', evs'.
Qed.

Lemma session_invariant_witness :
  session_inv demo_completed /\
  session_inv (store (run offline_env (demo_widgets None []) demo_answered)) /\
  phase_of demo_answered = AWAITING_ANSWER 1.
Proof.
  destruct session_invariant as (R & P & _ & _ & _ & _ & Q).
  split; [exact (R _ reachable_demo_completed)|].
  split; [exact (P _ _ _ (R _ reachable_demo_answered))|].
  refine (proj1 (Q 1 demo_started demo_answered demo_questions
                   (R _ reachable_demo_started) eq_refl eq_refl _ _)).
  - cbn. lia.
  - exact (submits_S 0 _ _ _ submit_demo_first (submits_O _)).
Defined.

(** ** C6: the empty-answer guard *)

Lemma strip_empty_iff (a : pystr) :
  strip a = [] <-> forallb isspace a = true.
Proof.
  split; [apply strip_empty_blank | apply strip_blank].
Qed.

(** C6.  While question [i] is on display, a press on its submit button
    with an answer that is empty once trimmed (all white space, as [""] and
    ["   "] are) changes nothing in the store, calls no evaluator, asks for
    no re-execution and shows the warning; the question and its submit
    button stay on the page. *)
Theorem empty_answer_guard (env : environment) (w : widgets)
  (s : session_state) (i : nat) :
  session_inv s ->
  phase_of s = AWAITING_ANSWER i ->
  clicked w = Some (SubmitAnswer i) ->
  strip (answer_box w i) = [] ->
  let o := run env w s in
  store o = s /\
  stopped o = None /\
  interact env w s = o /\
  In (Warning (str "Please type an answer before submitting.")) (trace o) /\
  (forall q a, ~ In (InvokeEvalChain q a) (trace o)) /\
  In (Button (SubmitAnswer i)) (trace o) /\
  phase_of (store o) = AWAITING_ANSWER i /\
  (forall a, strip a = [] <-> forallb isspace a = true) /\
  strip (str "") = [] /\ strip (str "   ") = [].
Proof.
  intros I P C B.
  destruct (awaiting_ready s i I P) as (qs & ans & evs & q & -> & Hq & _).
  cbv zeta. unfold interact.
  rewrite (run_submit env w qs ans evs i q Hq C).
  unfold submit_outcome. rewrite B. cbn [truthy stopped store trace].
  repeat split; try exact P; try apply strip_empty_iff.
  - cbn. tauto.
  - cbn. intros q' a [H|[H|[H|[H|[H|[H|[]]]]]]]; discriminate.
  - cbn. tauto.
Qed.

Lemma empty_answer_guard_witness :
  store (run demo_env (demo_widgets (Some (SubmitAnswer 1)) (str "   "))
           demo_answered)
  = demo_answered.
Proof.
  refine (proj1 (empty_answer_guard demo_env
                   (demo_widgets (Some (SubmitAnswer 1)) (str "   "))
                   demo_answered 1 _ eq_refl eq_refl _)).
  - cbn. lia.
  - vm_compute. reflexivity.
Defined.

(** ** C7: the completed page *)

(** C7, as the script has it.  Once [current_q == len(questions)] on a
    non-empty question list the page is the completed one, and it stays so:
    an execution caused by anything but the start and exit buttons leaves
    the store as it is and shows the completion message again.  Exit clears
    the store, after which nothing is on display; start clears it and
    stores the new questions, or leaves it cleared when the model call
    fails. *)
Theorem terminal_property (s : session_state) (qs : list pystr) :
  session_inv s ->
  questions s = Some qs ->
  qs <> [] ->
  current_q s = Some (List.length qs) ->
  phase_of s = COMPLETED /\
  (forall env w,
     clicked w <> Some StartInterview ->
     clicked w <> Some ExitInterview ->
     store (run env w s) = s /\
     store (interact env w s) = s /\
     In SuccessCompleted (trace (run env w s))) /\
  (forall env w,
     clicked w = Some ExitInterview ->
     store (interact env w s) = cleared /\
     phase_of cleared = NOT_STARTED) /\
  (forall env w,
     clicked w = Some StartInterview ->
     store (run env w s) =
     match question_chain env (field w) (tone w) (num_questions w) with
     | Ok text => ready (questions_of text) [] [] 0
     | Raise _ => cleared
     end).
Proof.
  intros I Q Hne C.
  destruct (session_inv_cases s I) as [->|H]; [discriminate|].
  destruct H as (qs0 & ans & evs & n & -> & La & Le & Ln).
  cbn in Q, C. inversion Q; subst qs0. inversion C; subst n. clear Q C.
  split; [|split; [|split]].
  - rewrite phase_of_ready. destruct qs; [congruence|].
    now rewrite Nat.ltb_irrefl.
  - intros env w C1 C2.
    assert (R : run env w (ready qs ans evs (List.length qs))
                = completed_outcome env w qs ans evs (List.length qs))
      by (apply run_completed; auto).
    assert (S : store (completed_outcome env w qs ans evs (List.length qs))
                = ready qs ans evs (List.length qs) /\
                stopped (completed_outcome env w qs ans evs (List.length qs))
                <> Some RerunRequested /\
                In SuccessCompleted
                  (trace (completed_outcome env w qs ans evs (List.length qs)))).
    { unfold completed_outcome.
      destruct (pressed w SaveInterview); [destruct (open_w env _)|];
        cbn; repeat split; try discriminate; tauto. }
    destruct S as (S1 & S2 & S3).
    unfold interact. rewrite R.
    destruct (stopped (completed_outcome env w qs ans evs (List.length qs)))
      as [[e|]|]; try congruence; now repeat split.
  - intros env w C. unfold interact.
    destruct qs as [|q0 qs]; [congruence|].
    rewrite (run_exit env w q0 qs ans evs _ C). cbn [stopped store].
    split; [|reflexivity].
    apply run_unclicked, initialised_cleared.
  - intros env w C.
    destruct (question_chain env (field w) (tone w) (num_questions w))
      as [text|e] eqn:E.
    + now rewrite (run_start env w _ text (or_introl C) E).
    + rewrite (run_start_failed env w _ e); [reflexivity| |exact E].
      unfold starts. now rewrite C.
Qed.

Lemma terminal_property_witness :
  phase_of demo_completed = COMPLETED.
Proof.
  refine (proj1 (terminal_property demo_completed demo_questions _
                   eq_refl _ eq_refl)).
  - cbn. lia.
  - discriminate.
Defined.

Lemma reachable_cleared : reachable cleared.
Proof.
  change cleared
    with (store (run offline_env (demo_widgets None []) fresh)).
  apply reach_run, reach_fresh.
Defined.

(** C7 as stated fails on the script: in the cleared store, which an exit
    or a failed start leaves, [current_q] equals [len(questions)], yet the
    page is not the completed one: it shows the start button and nothing
    else. *)
Lemma terminal_property_counterexample :
  reachable cleared /\
  questions cleared = Some [] /\
  current_q cleared = Some (List.length (@nil pystr)) /\
  phase_of cleared <> COMPLETED /\
  trace (run demo_env (demo_widgets None []) cleared)
  = [Button StartInterview].
Proof.
  split; [exact reachable_cleared|].
  repeat split; try reflexivity. discriminate.
Qed.

(** ** C8: the saved transcript *)

Lemma report_effects_no_dump (f : pystr) (d : json) (i : nat)
  (rows : list (pystr * pystr * evaluation)) :
  ~ In (JsonDump f d) (report_effects i rows).
Proof.
  revert i; induction rows as [|[[q a] e] rows IH]; intros i; cbn.
  - tauto.
  - intros [H|[H|[H|[H|[H|H]]]]]; try discriminate. now apply (IH (S i)).
Qed.

(** C8.  On a press of the save button on the completed page of a reachable
    session, when the file opens, exactly one document is dumped: under the
    name [interview_<field>.json] with every blank of the field replaced by
    an underscore, an object with the keys [field], [tone], [questions],
    [answers], [evaluations] in this order; the three arrays are the
    session's lists, of one length, entry [i] of each belonging to question
    [i], and each evaluation is an object with keys [score] and
    [comment]. *)
Theorem transcript_format (env : environment) (w : widgets)
  (s : session_state) :
  reachable s ->
  phase_of s = COMPLETED ->
  clicked w = Some SaveInterview ->
  open_w env (transcript_filename (field w)) = Ok tt ->
  exists qs ans evs,
    s = ready qs ans evs (List.length qs) /\
    List.length ans = List.length qs /\
    List.length evs = List.length qs /\
    let filename :=
      str "interview_"
      ++ map (fun c => if Ascii.eqb c " " then "_"%char else c) (field w)
      ++ str ".json" in
    let data :=
      JObject
        [(str "field", JString (field w));
         (str "tone", JString (tone_str (tone w)));
         (str "questions", JArray (map JString qs));
         (str "answers", JArray (map JString ans));
         (str "evaluations",
          JArray (map (fun e => JObject [(str "score", JNumber (score e));
                                         (str "comment", JString (comment e))])
                    evs))] in
    json_keys data = [str "field"; str "tone"; str "questions";
                      str "answers"; str "evaluations"] /\
    (forall f d,
       In (JsonDump f d) (trace (run env w s)) <-> f = filename /\ d = data) /\
    store (run env w s) = s /\
    stopped (run env w s) = None.
Proof.
  intros R P C O.
  destruct (completed_ready s (reachable_inv s R) P)
    as (qs & ans & evs & -> & Hne & La & Le).
  exists qs, ans, evs.
  split; [reflexivity|]. split; [exact La|]. split; [exact Le|].
  cbv zeta. split; [reflexivity|].
  rewrite run_completed by (auto; rewrite C; discriminate).
  unfold completed_outcome, pressed. rewrite C. cbn [button_eqb].
  rewrite O. cbn [trace store stopped].
  split; [|split; reflexivity].
  intros f d. split.
  - intros H. unfold completed_widgets in H. cbn in H.
    destruct H as [H|[H|[H|H]]]; try discriminate.
    rewrite <- app_assoc in H. apply in_app_or in H as [H|H];
      [now apply report_effects_no_dump in H|].
    cbn in H. destruct H as [H|[H|[H|[]]]]; try discriminate.
    now inversion H.
  - intros [-> ->]. apply in_or_app. right. now left.
Qed.

Lemma transcript_format_witness :
  exists qs ans evs,
    demo_completed = ready qs ans evs (List.length qs) /\
    List.length ans = List.length qs /\
    List.length evs = List.length qs.
Proof.
  destruct (transcript_format demo_env (demo_widgets (Some SaveInterview) [])
              demo_completed reachable_demo_completed eq_refl eq_refl eq_refl)
    as (qs & ans & evs & E & La & Le & _).
  now exists qs, ans, evs.
Defined.

(** ** C10 and C5: when a collaborator fails *)

(** C10.  When the start block runs (its button was pressed, or the store
    is new) and the question model call raises, the store was cleared
    before the call: the exception leaves the script, nothing is shown
    beyond the start button, no re-execution is asked for, and whatever
    questions, answers and evaluations the session held are gone; later
    executions do not bring them back. *)
Theorem start_not_atomic (env : environment) (w : widgets)
  (s : session_state) (e : exn) :
  clicked w = Some StartInterview \/ questions s = None ->
  question_chain env (field w) (tone w) (num_questions w) = Raise e ->
  let o := run env w s in
  stopped o = Some (Uncaught e) /\
  store o = ready [] [] [] 0 /\
  trace o = [Button StartInterview;
             InvokeQuestionChain (field w) (tone w) (num_questions w)] /\
  interact env w s = o /\
  (forall env' w',
     clicked w' <> Some StartInterview ->
     store (run env' w' (store o)) = ready [] [] [] 0).
Proof.
  intros Ev Q. cbv zeta.
  assert (St : starts w s = true).
  { unfold starts. destruct Ev as [-> | ->]; [reflexivity|].
    apply orb_true_r. }
  unfold interact. rewrite (run_start_failed env w s e St Q).
  cbn [stopped store trace]. repeat split.
  intros env' w' C. fold cleared. unfold cleared.
  now rewrite run_without_questions.
Qed.

Lemma start_not_atomic_witness :
  store (run offline_env (demo_widgets (Some StartInterview) [])
           demo_completed)
  = ready [] [] [] 0.
Proof.
  refine (proj1 (proj2 (start_not_atomic offline_env
                          (demo_widgets (Some StartInterview) [])
                          demo_completed ModelError _ eq_refl))).
  left. reflexivity.
Defined.

(** C5, as the script has it.  A failure of a model call is not caught.
    When the question call raises, the exception leaves the script with
    nothing drawn but the start button, and the session is left cleared:
    an empty question list, which is not the completed page, for later
    executions draw the start button and nothing else.  When the
    evaluation call raises, the exception leaves the script and the
    session is as it was, with no answer and no evaluation recorded.  What
    degrades silently is the parsing: a response without digit-led lines
    gives an empty question list and no error; the evaluation of a response
    is always built, with score 0 when the score cannot be read and an
    empty comment when no line has the marker. *)
Theorem model_failures (env : environment) (w : widgets) :
  (forall s e,
     clicked w = Some StartInterview \/ questions s = None ->
     question_chain env (field w) (tone w) (num_questions w) = Raise e ->
     run env w s =
       {| stopped := Some (Uncaught e);
          store := ready [] [] [] 0;
          trace := [Button StartInterview;
                    InvokeQuestionChain (field w) (tone w)
                      (num_questions w)] |} /\
     phase_of (ready [] [] [] 0) = NOT_STARTED /\
     (forall env' w',
        clicked w' <> Some StartInterview ->
        run env' w' (ready [] [] [] 0) =
          {| stopped := None; store := ready [] [] [] 0;
             trace := [Button StartInterview] |})) /\
  (forall qs ans evs n q e,
     nth_error qs n = Some q ->
     clicked w = Some (SubmitAnswer n) ->
     truthy (strip (answer_box w n)) = true ->
     eval_chain env q (answer_box w n) = Raise e ->
     run env w (ready qs ans evs n) =
       {| stopped := Some (Uncaught e);
          store := ready qs ans evs n;
          trace := ([Button StartInterview; Button ExitInterview]
                    ++ question_widgets n q)
                   ++ [InvokeEvalChain q (answer_box w n)] |}) /\
  (forall s text,
     clicked w = Some StartInterview \/
     (clicked w = None /\ questions s = None) ->
     question_chain env (field w) (tone w) (num_questions w) = Ok text ->
     Forall (fun l => digit_led l = false) (split nl text) ->
     run env w s =
       {| stopped := None;
          store := ready [] [] [] 0;
          trace := [Button StartInterview;
                    InvokeQuestionChain (field w) (tone w)
                      (num_questions w)] |}) /\
  (forall text,
     parse_evaluation text =
     Ok {| score := parse_score text; comment := comment_of text |}) /\
  (forall text e, try_score text = Raise e -> parse_score text = PyInt 0) /\
  (forall text,
     first_line_with "Comment:" text = None -> comment_of text = []).
Proof.
  split; [|split; [|split; [|split; [|split]]]].
  - intros s e Ev Q.
    assert (St : starts w s = true).
    { unfold starts. destruct Ev as [-> | ->]; [reflexivity|].
      apply orb_true_r. }
    rewrite (run_start_failed env w s e St Q).
    split; [reflexivity|]. split; [reflexivity|].
    intros env' w' C. now apply run_without_questions.
  - intros qs ans evs n q e Hq C T E.
    rewrite (run_submit env w qs ans evs n q Hq C).
    unfold submit_outcome. now rewrite T, E.
  - intros s text Ev Q F.
    rewrite (run_start env w s text Ev Q).
    assert (E : questions_of text = []).
    { unfold questions_of. clear Q.
      induction F as [|l ls Hl _ IH]; [reflexivity|].
      cbn [filter]. now rewrite Hl. }
    now rewrite E.
  - exact parse_evaluation_ok.
  - intros text e H. unfold parse_score. now rewrite H.
  - intros text H. rewrite comment_of_unfold. now rewrite H.
Qed.

Lemma model_failures_witness :
  stopped (run offline_env
             (demo_widgets (Some (SubmitAnswer 1)) (str "TP / (TP + FN)"))
             demo_answered)
  = Some (Uncaught ModelError) /\
  store (run offline_env (demo_widgets (Some StartInterview) [])
           demo_completed)
  = ready [] [] [] 0.
Proof.
  pose proof (model_failures offline_env
                (demo_widgets (Some (SubmitAnswer 1)) (str "TP / (TP + FN)")))
    as (_ & E & _).
  pose proof (model_failures offline_env
                (demo_widgets (Some StartInterview) []))
    as (G & _).
  split.
  - unfold demo_answered.
    rewrite (E demo_questions [str "A fit to noise."] [demo_evaluation]
               1 (str "2. Define recall.") ModelError
               eq_refl eq_refl eq_refl eq_refl).
    reflexivity.
  - rewrite (proj1 (G demo_completed ModelError (or_introl eq_refl) eq_refl)).
    reflexivity.
Defined.

(** C5 as stated fails on the script: with the model out of reach, the
    first load of the page ends in an uncaught exception with the session
    cleared and not completed; so does a press on the start button, which
    also loses the transcript; and a submitted answer ends in an uncaught
    exception with no evaluation recorded. *)
Lemma model_failures_counterexample :
  run offline_env (demo_widgets None []) fresh
  = {| stopped := Some (Uncaught ModelError);
       store := ready [] [] [] 0;
       trace := [Button StartInterview;
                 InvokeQuestionChain (str "Data Science") friendly 2] |} /\
  run offline_env (demo_widgets (Some StartInterview) []) demo_completed
  = {| stopped := Some (Uncaught ModelError);
       store := ready [] [] [] 0;
       trace := [Button StartInterview;
                 InvokeQuestionChain (str "Data Science") friendly 2] |} /\
  phase_of (ready [] [] [] 0) <> COMPLETED /\
  run offline_env
    (demo_widgets (Some (SubmitAnswer 0)) (str "A fit to noise."))
    demo_started
  = {| stopped := Some (Uncaught ModelError);
       store := demo_started;
       trace := [Button StartInterview; Button ExitInterview]
                ++ question_widgets 0 (str "1. What is overfitting?")
                ++ [InvokeEvalChain (str "1. What is overfitting?")
                      (str "A fit to noise.")] |}.
Proof.
  vm_compute. repeat split; try reflexivity. discriminate.
Qed.

(* ===================================================================== *)
(** * Further properties: lines and pieces *)
(* ===================================================================== *)

Section SplitFacts.

Variable a : ascii.
Variable sep' : pystr.

(** Induction along the cuts [split] makes. *)
Lemma split_cuts (P : pystr -> list pystr -> Prop) :
  (forall s, partition (a :: sep') s = None -> P s [s]) ->
  (forall s pre post,
     partition (a :: sep') s = Some (pre, post) ->
     P post (split (a :: sep') post) ->
     P s (pre :: split (a :: sep') post)) ->
  forall s, P s (split (a :: sep') s).
Proof.
  intros Hn Hs s.
  induction s as [s IH] using (induction_ltof1 _ (@List.length ascii)).
  rewrite split_unfold.
  destruct (partition (a :: sep') s) as [[pre post]|] eqn:E; [|now apply Hn].
  apply Hs; [exact E|]. apply IH. unfold ltof.
  apply partition_length in E. cbn in E. lia.
Qed.

(** X1.  Splitting loses nothing: the pieces of [s.split(sep)], joined with
    the separator, are [s] again. *)
Theorem join_split (s : pystr) : join (a :: sep') (split (a :: sep') s) = s.
Proof.
  apply (split_cuts (fun s pieces => join (a :: sep') pieces = s)).
  - reflexivity.
  - intros t pre post E IH. apply partition_app in E. subst t.
    cbn [join]. destruct (split (a :: sep') post) as [|p r] eqn:S.
    + rewrite split_unfold in S.
      destruct (partition (a :: sep') post) as [[]|]; discriminate.
    + now rewrite IH.
Qed.

End SplitFacts.

Lemma partition_char_pre (c : ascii) (s pre post : pystr) :
  partition [c] s = Some (pre, post) -> ~ In c pre.
Proof.
  revert pre post; induction s as [|x s IH]; intros pre post; cbn.
  - discriminate.
  - destruct (Ascii.eqb_spec c x) as [->|N].
    + intros H; inversion H. tauto.
    + destruct (partition [c] s) as [[p q]|]; [|discriminate].
      intros H; inversion H; subst. intros [E|I]; [congruence|].
      now apply (IH _ _ eq_refl).
Qed.

Lemma partition_char_none (c : ascii) (s : pystr) :
  partition [c] s = None -> ~ In c s.
Proof.
  induction s as [|x s IH]; cbn; [tauto|].
  destruct (Ascii.eqb_spec c x) as [->|N]; [discriminate|].
  destruct (partition [c] s) as [[p q]|]; [discriminate|].
  intros _ [E|I]; [congruence | now apply IH].
Qed.

Lemma split_nl_facts (text : pystr) :
  Forall (fun line => ~ In LF line) (split nl text) /\
  List.length (split nl text) = S (count_occ ascii_dec text LF).
Proof.
  unfold nl.
  apply (split_cuts LF [] (fun s pieces =>
           Forall (fun line => ~ In LF line) pieces /\
           List.length pieces = S (count_occ ascii_dec s LF))).
  - intros s E. apply partition_char_none in E. split.
    + now repeat constructor.
    + cbn. f_equal. symmetry. now apply count_occ_not_In.
  - intros s pre post E [F L]. split.
    + constructor; [now apply partition_char_pre in E | exact F].
    + pose proof (partition_char_pre _ _ _ _ E) as N.
      apply partition_app in E. subst s.
      cbn [List.length]. rewrite L, count_occ_app.
      rewrite (proj1 (count_occ_not_In ascii_dec pre LF) N).
      cbn. destruct (ascii_dec LF LF); [reflexivity | congruence].
Qed.

(** X2.  The lines of a text hold no line feed, and there is one line more
    than there are line feeds: the empty text has one (empty) line. *)
Theorem lines_of_text (text : pystr) :
  Forall (fun line => ~ In LF line) (split nl text) /\
  List.length (split nl text) = S (count_occ ascii_dec text LF).
Proof. exact (split_nl_facts text). Qed.

(* ===================================================================== *)
(** * Further properties: what the store holds *)
(* ===================================================================== *)

Lemma strip_incl (s : pystr) (c : ascii) : In c (strip s) -> In c s.
Proof.
  intros H. unfold strip in *.
  destruct (lstrip_split s) as (ws & E & _).
  destruct (rstrip_split (lstrip s)) as (ws' & E' & _).
  rewrite E, E'. apply in_or_app. right. apply in_or_app. now left.
Qed.

Lemma segment_after_incl (sep line seg : pystr) (c : ascii) :
  segment_after sep line = Some seg -> In c seg -> In c line.
Proof.
  unfold segment_after.
  destruct (partition sep line) as [[pre post]|] eqn:P; [|discriminate].
  apply partition_app in P. subst line.
  intros H I. inversion H; subst seg. clear H.
  apply in_or_app. right. apply in_or_app. right.
  destruct (partition sep post) as [[mid rest]|] eqn:Q; [|exact I].
  apply partition_app in Q. subst post. apply in_or_app. now left.
Qed.

Lemma questions_of_stored (text : pystr) :
  Forall stored_question (questions_of text).
Proof.
  unfold questions_of. apply Forall_forall. intros q Hq.
  apply in_map_iff in Hq as (line & <- & Hl).
  apply filter_In in Hl as [Hl D].
  split; [apply strip_idempotent|]. split.
  - intros I. apply strip_incl in I.
    pose proof (proj1 (split_nl_facts text)) as F.
    rewrite Forall_forall in F. now apply (F line Hl).
  - apply digit_led_iff in D as (c & rest & _ & E & _ & Sp & Dc).
    now exists c, rest.
Qed.

Lemma evaluation_of_stored (r : pystr) : stored_evaluation (evaluation_of r).
Proof.
  unfold stored_evaluation, evaluation_of. cbn [score comment].
  split; [|split].
  - rewrite comment_of_unfold.
    destruct (first_line_with _ r); [|reflexivity].
    destruct (segment_after _ _); [apply strip_idempotent | reflexivity].
  - rewrite comment_of_unfold. unfold first_line_with.
    destruct (find _ _) as [line|] eqn:F; [|tauto].
    apply find_some in F as [Hl _].
    destruct (segment_after _ line) as [seg|] eqn:S; [|tauto].
    intros I. apply strip_incl in I.
    apply (segment_after_incl _ _ _ _ S) in I.
    pose proof (proj1 (split_nl_facts r)) as L.
    rewrite Forall_forall in L. now apply (L line Hl).
  - intros z. unfold parse_score. destruct (try_score r); congruence.
Qed.

Section Moves.

Variable env : environment.
Variable w : widgets.

(** Lines 77-145 move an initialised store by one of the three moves. *)
Lemma exit_then_loop_moves (s1 : session_state) :
  initialised s1 ->
  match exit_block w s1 with
  | (inl _, s2, _) => moved s1 (snd (fst (interview_loop env w s2)))
  | (inr _, s2, _) => moved s1 s2
  end.
Proof.
  intros I. rewrite exit_block_spec.
  destruct (shown s1) eqn:Sh;
    [destruct (pressed w ExitInterview); [right; now left|]|].
  all: rewrite interview_loop_spec.
  all: destruct I as (qs & ans & evs & n & -> & La & Le & Ln).
  all: cbn [questions ready].
  all: destruct qs as [|q qs]; [now left|].
  all: change (q_index_of (ready (q :: qs) ans evs n)) with n.
  all: destruct (Nat.ltb_spec n (List.length (q :: qs))) as [Lt|Ge].
  all: try (rewrite completed_branch_spec;
            destruct (pressed w SaveInterview);
            [destruct (open_w env _)|]; cbn; now left).
  all: destruct (nth_error (q :: qs) n) as [qn|] eqn:Hq;
         [|apply nth_error_None in Hq; lia].
  all: rewrite (question_branch_spec env w _ ans evs n qn Hq).
  all: destruct (pressed w (SubmitAnswer n));
         [destruct (truthy _) eqn:T; [destruct (eval_chain env _ _)|]|]; cbn;
         try (now left).
  all: right; right; eexists _, _, _, _, _, _;
         split; [reflexivity|]; split; [|reflexivity].
  all: intros E; rewrite E in T; discriminate.
Qed.

(** One execution: the start block leaves the store, the cleared store or
    a fresh question list; the rest of the page then makes one move. *)
Lemma run_moves (s : session_state) :
  session_inv s ->
  exists s1,
    (s1 = s \/ s1 = cleared \/
     exists text, s1 = ready (questions_of text) [] [] 0) /\
    initialised s1 /\
    moved s1 (store (run env w s)).
Proof.
  intros I. unfold run. rewrite app_spec, start_block_spec.
  assert (T : forall s1 t1, initialised s1 ->
    moved s1 (store
      (let '(r, s', t) :=
         match exit_block w s1 with
         | (inl _, s2, t2) =>
             let '(r, s3, t3) := interview_loop env w s2 in
             (r, s3, t1 ++ t2 ++ t3)
         | (inr e, s2, t2) => (inr e, s2, t1 ++ t2)
         end in
       {| stopped := match r with inl _ => None | inr e => Some e end;
          store := s'; trace := t |}))).
  { intros s1 t1 I1. pose proof (exit_then_loop_moves s1 I1) as H.
    destruct (exit_block w s1) as [[[[]|e] s2] t2]; [|exact H].
    destruct (interview_loop env w s2) as [[r s3] t3]. exact H. }
  destruct (starts w s) eqn:St.
  - destruct (question_chain env _ _ _) as [text|e].
    + exists (ready (questions_of text) [] [] 0).
      split; [right; right; now exists text|].
      split; [apply initialised_started|].
      apply T, initialised_started.
    + exists cleared. split; [right; now left|].
      split; [apply initialised_cleared | now left].
  - assert (H : initialised s).
    { destruct (session_inv_cases s I) as [->|H]; [|exact H].
      unfold starts in St. cbn in St. rewrite orb_true_r in St.
      discriminate. }
    exists s. split; [now left|]. split; [exact H | now apply T].
Qed.

End Moves.

Lemma content_inv_moved (s s' : session_state) :
  content_inv s -> moved s s' -> content_inv s'.
Proof.
  intros C [->|[->|(qs & ans & evs & n & a & r & -> & A & ->)]].
  - exact C.
  - repeat split; intros l H; inversion H; constructor.
  - destruct C as (Cq & Ca & Ce). repeat split; intros l H; inversion H.
    + now apply Cq.
    + apply Forall_app. split; [now apply Ca|].
      constructor; [exact A | constructor].
    + apply Forall_app. split; [now apply Ce|].
      constructor; [apply evaluation_of_stored | constructor].
Qed.

Lemma reachable_content (s : session_state) : reachable s -> content_inv s.
Proof.
  induction 1 as [|env w s R IH].
  - repeat split; intros l H; discriminate.
  - destruct (run_moves env w s (reachable_inv s R))
      as (s1 & S1 & _ & M).
    apply (content_inv_moved s1); [|exact M].
    destruct S1 as [->|[->|(text & ->)]]; [exact IH| |].
    + repeat split; intros l H; inversion H; constructor.
    + repeat split; intros l H; inversion H; try constructor.
      apply questions_of_stored.
Qed.

(** X3.  In every store a session can reach, each question is trimmed,
    holds no line feed and begins with a digit: nothing empty, indented or
    spanning lines is ever put on display. *)
Theorem stored_questions (s : session_state) (qs : list pystr) :
  reachable s -> questions s = Some qs -> Forall stored_question qs.
Proof.
  intros R. apply (reachable_content s R).
Qed.

Lemma stored_questions_witness : Forall stored_question demo_questions.
Proof.
  exact (stored_questions demo_completed demo_questions
           reachable_demo_completed eq_refl).
Defined.

(** X4.  In every store a session can reach, no recorded answer is blank,
    every recorded comment is trimmed and on one line, and a recorded score
    is a float or the integer 0. *)
Theorem stored_answers (s : session_state) :
  reachable s ->
  (forall ans, answers s = Some ans -> Forall (fun a => strip a <> []) ans) /\
  (forall evs, evaluations s = Some evs -> Forall stored_evaluation evs).
Proof.
  intros R. apply (reachable_content s R).
Qed.

Lemma stored_answers_witness :
  Forall stored_evaluation [demo_evaluation; demo_evaluation].
Proof.
  exact (proj2 (stored_answers demo_completed reachable_demo_completed)
           _ eq_refl).
Defined.

(* ===================================================================== *)
(** * Further properties: line ends *)
(* ===================================================================== *)

Lemma split_char_nil (c : ascii) : split [c] [] = [[]].
Proof. now rewrite split_unfold. Qed.

Lemma split_char_cons (c x : ascii) (s : pystr) :
  split [c] (x :: s) =
  if Ascii.eqb c x then [] :: split [c] s
  else match split [c] s with
       | h :: r => (x :: h) :: r
       | [] => [[x]]
       end.
Proof.
  rewrite split_unfold. cbn [partition strip_prefix].
  destruct (Ascii.eqb c x); [reflexivity|].
  rewrite (split_unfold c [] s).
  destruct (partition [c] s) as [[pre post]|]; reflexivity.
Qed.

Lemma split_nl_crlf (text : pystr) :
  split nl (crlf text) = cr_ended (split nl text).
Proof.
  unfold nl. induction text as [|x t IH]; [reflexivity|].
  cbn [crlf flat_map]. fold (crlf t).
  destruct (Ascii.eqb_spec x LF) as [->|N].
  - change ([CR; LF] ++ crlf t) with (CR :: LF :: crlf t).
    rewrite !split_char_cons, Ascii.eqb_refl, IH.
    change (Ascii.eqb LF CR) with false. cbn [cr_ended].
    destruct (split [LF] t) as [|h r] eqn:S; [|reflexivity].
    rewrite split_unfold in S.
    destruct (partition [LF] t) as [[]|]; discriminate.
  - change ([x] ++ crlf t) with (x :: crlf t).
    rewrite !split_char_cons, IH.
    assert (E : Ascii.eqb LF x = false).
    { apply Ascii.eqb_neq. congruence. }
    rewrite E. destruct (split [LF] t) as [|h [|h' r]]; reflexivity.
Qed.

Lemma lstrip_snoc (l : pystr) (c : ascii) :
  isspace c = true ->
  lstrip (l ++ [c]) = match lstrip l with [] => [] | _ :: _ => lstrip l ++ [c] end.
Proof.
  intros C. induction l as [|x l IH]; cbn.
  - now rewrite C.
  - destruct (isspace x); [exact IH | reflexivity].
Qed.

(** White space after a line does not show in its trimmed text. *)
Lemma strip_snoc (l : pystr) (c : ascii) :
  isspace c = true -> strip (l ++ [c]) = strip l.
Proof.
  intros C. unfold strip. rewrite (lstrip_snoc l c C).
  destruct (lstrip l) as [|y r]; [reflexivity|].
  unfold rstrip. rewrite rev_app_distr.
  change (rev [c] ++ rev (y :: r)) with (c :: rev (y :: r)).
  cbn [lstrip]. now rewrite C.
Qed.

Lemma strip_prefix_snoc (sep l : pystr) (c : ascii) :
  ~ In c sep ->
  strip_prefix sep (l ++ [c])
  = option_map (fun r => r ++ [c]) (strip_prefix sep l).
Proof.
  revert l; induction sep as [|a sep IH]; intros l N; [reflexivity|].
  destruct l as [|b l]; cbn.
  - destruct (Ascii.eqb_spec a c) as [->|_]; [|reflexivity].
    exfalso. apply N. now left.
  - destruct (Ascii.eqb a b); [|reflexivity].
    apply IH. intros I. apply N. now right.
Qed.

Lemma partition_snoc (a : ascii) (sep' l : pystr) (c : ascii) :
  ~ In c (a :: sep') ->
  partition (a :: sep') (l ++ [c])
  = option_map (fun '(pre, post) => (pre, post ++ [c]))
      (partition (a :: sep') l).
Proof.
  intros N. induction l as [|b l IH].
  - cbn. destruct (Ascii.eqb_spec a c) as [->|_]; [|reflexivity].
    exfalso. apply N. now left.
  - change ((b :: l) ++ [c]) with (b :: (l ++ [c])).
    change (partition (a :: sep') (b :: (l ++ [c])))
      with (match strip_prefix (a :: sep') ((b :: l) ++ [c]) with
            | Some rest => Some ([], rest)
            | None =>
                match partition (a :: sep') (l ++ [c]) with
                | Some (pre, post) => Some (b :: pre, post)
                | None => None
                end
            end).
    rewrite (strip_prefix_snoc (a :: sep') (b :: l) c N), IH.
    change (partition (a :: sep') (b :: l))
      with (match strip_prefix (a :: sep') (b :: l) with
            | Some rest => Some ([], rest)
            | None =>
                match partition (a :: sep') l with
                | Some (pre, post) => Some (b :: pre, post)
                | None => None
                end
            end).
    destruct (strip_prefix (a :: sep') (b :: l)); [reflexivity|].
    destruct (partition (a :: sep') l) as [[pre post]|]; reflexivity.
Qed.

Section TrailingSpace.

Variable a : ascii.
Variable sep' : pystr.
Variable c : ascii.
Hypothesis c_space : isspace c = true.
Hypothesis c_fresh : ~ In c (a :: sep').

Lemma contains_snoc (l : pystr) :
  contains (a :: sep') (l ++ [c]) = contains (a :: sep') l.
Proof.
  unfold contains. rewrite (partition_snoc a sep' l c c_fresh).
  now destruct (partition (a :: sep') l) as [[]|].
Qed.

Lemma segment_after_snoc (l : pystr) :
  option_map strip (segment_after (a :: sep') (l ++ [c]))
  = option_map strip (segment_after (a :: sep') l).
Proof.
  unfold segment_after. rewrite (partition_snoc a sep' l c c_fresh).
  destruct (partition (a :: sep') l) as [[pre post]|]; [|reflexivity].
  cbn [option_map]. rewrite (partition_snoc a sep' post c c_fresh).
  destruct (partition (a :: sep') post) as [[mid rest]|]; cbn [option_map];
    [reflexivity|].
  now rewrite (strip_snoc post c c_space).
Qed.

End TrailingSpace.

Lemma find_cr_ended {A} (p : pystr -> bool) (G : pystr -> A) (d : A)
  (lines : list pystr) :
  (forall l, p (l ++ [CR]) = p l) ->
  (forall l, G (l ++ [CR]) = G l) ->
  match find p (cr_ended lines) with Some l => G l | None => d end
  = match find p lines with Some l => G l | None => d end.
Proof.
  intros Hp HG. induction lines as [|l [|l' r] IH]; [reflexivity..|].
  cbn [cr_ended find]. rewrite Hp.
  destruct (p l); [apply HG | exact IH].
Qed.

Lemma filter_cr_ended (lines : list pystr) :
  map strip (filter digit_led (cr_ended lines))
  = map strip (filter digit_led lines).
Proof.
  induction lines as [|l [|l' r] IH]; [reflexivity..|].
  change (cr_ended (l :: l' :: r)) with ((l ++ [CR]) :: cr_ended (l' :: r)).
  remember (cr_ended (l' :: r)) as ended. remember (l' :: r) as rest.
  cbn [filter].
  assert (D : digit_led (l ++ [CR]) = digit_led l).
  { unfold digit_led. now rewrite (strip_snoc l CR eq_refl). }
  rewrite D. destruct (digit_led l); cbn [map]; [|exact IH].
  now rewrite (strip_snoc l CR eq_refl), IH.
Qed.

(** X5.  Windows line ends change nothing: a response in which every line
    feed is preceded by a carriage return gives the same question list and
    the same evaluation as the response without them. *)
Theorem crlf_immaterial (text : pystr) :
  parse_questions (crlf text) = parse_questions text /\
  parse_evaluation (crlf text) = parse_evaluation text.
Proof.
  split.
  - rewrite !parse_questions_ok. unfold questions_of.
    now rewrite split_nl_crlf, filter_cr_ended.
  - rewrite !parse_evaluation_ok. f_equal. f_equal.
    + rewrite !parse_score_unfold. unfold first_line_with.
      rewrite split_nl_crlf.
      change (str "Score:") with ("S"%char :: str "core:").
      apply find_cr_ended.
      * intros l. apply contains_snoc. vm_compute. intuition discriminate.
      * intros l.
        pose proof (segment_after_snoc "S"%char (str "core:") CR eq_refl) as H.
        specialize (H ltac:(vm_compute; intuition discriminate) l).
        unfold score_from.
        destruct (segment_after _ (l ++ [CR])), (segment_after _ l);
          cbn in H; try discriminate; [|reflexivity].
        now inversion H.
    + rewrite !comment_of_unfold. unfold first_line_with.
      rewrite split_nl_crlf.
      change (str "Comment:") with ("C"%char :: str "omment:").
      apply find_cr_ended.
      * intros l. apply contains_snoc. vm_compute. intuition discriminate.
      * intros l.
        pose proof (segment_after_snoc "C"%char (str "omment:") CR eq_refl)
          as H.
        specialize (H ltac:(vm_compute; intuition discriminate) l).
        destruct (segment_after _ (l ++ [CR])), (segment_after _ l);
          cbn in H; try discriminate; [|reflexivity].
        now inversion H.
Qed.

(* ===================================================================== *)
(** * Further properties: what follows the first marker line *)
(* ===================================================================== *)

Lemma split_nonempty (a : ascii) (sep' s : pystr) :
  split (a :: sep') s <> [].
Proof.
  rewrite split_unfold.
  destruct (partition (a :: sep') s) as [[]|]; discriminate.
Qed.

Lemma split_nl_app (text extra : pystr) :
  split nl (text ++ nl ++ extra) = split nl text ++ split nl extra.
Proof.
  unfold nl. induction text as [|x t IH].
  - change ([] ++ [LF] ++ extra) with (LF :: extra).
    now rewrite split_char_cons, Ascii.eqb_refl, split_char_nil.
  - change ((x :: t) ++ [LF] ++ extra) with (x :: (t ++ [LF] ++ extra)).
    rewrite !split_char_cons, IH.
    destruct (Ascii.eqb LF x); [reflexivity|].
    pose proof (split_nonempty LF [] t) as N.
    destruct (split [LF] t) as [|h r]; [congruence | reflexivity].
Qed.

Lemma find_app_some {A} (p : A -> bool) (l1 l2 : list A) (x : A) :
  find p l1 = Some x -> find p (l1 ++ l2) = Some x.
Proof.
  induction l1 as [|y l1 IH]; cbn; [discriminate|].
  destruct (p y); [trivial | exact IH].
Qed.

Lemma first_line_with_app (marker : string) (text extra line : pystr) :
  first_line_with marker text = Some line ->
  first_line_with marker (text ++ nl ++ extra) = Some line.
Proof.
  unfold first_line_with. rewrite split_nl_app. apply find_app_some.
Qed.

Lemma parse_score_later (text extra : pystr) :
  first_line_with "Score:" text <> None ->
  parse_score (text ++ nl ++ extra) = parse_score text.
Proof.
  intros H. destruct (first_line_with "Score:" text) as [l|] eqn:E;
    [|congruence].
  rewrite !parse_score_unfold.
  now rewrite (first_line_with_app "Score:" text extra l E), E.
Qed.

Lemma comment_of_later (text extra : pystr) :
  first_line_with "Comment:" text <> None ->
  comment_of (text ++ nl ++ extra) = comment_of text.
Proof.
  intros H. destruct (first_line_with "Comment:" text) as [l|] eqn:E;
    [|congruence].
  rewrite !comment_of_unfold.
  now rewrite (first_line_with_app "Comment:" text extra l E), E.
Qed.

(** X6.  Only the first marker lines count: once a response has a line
    with [Score:], nothing appended after it on later lines changes the
    score, and likewise for [Comment:]; with both present, the evaluation
    is that of the response up to there, so a comment that runs over
    several lines is cut after its first line. *)
Theorem later_lines_ignored (text extra : pystr) :
  (first_line_with "Score:" text <> None ->
   parse_score (text ++ nl ++ extra) = parse_score text) /\
  (first_line_with "Comment:" text <> None ->
   parse_comment (text ++ nl ++ extra) = parse_comment text) /\
  (first_line_with "Score:" text <> None ->
   first_line_with "Comment:" text <> None ->
   parse_evaluation (text ++ nl ++ extra) = parse_evaluation text).
Proof.
  split; [apply parse_score_later|]. split.
  - intros H. rewrite !parse_comment_ok. now rewrite comment_of_later.
  - intros Hs Hc. rewrite !parse_evaluation_ok.
    now rewrite parse_score_later, comment_of_later.
Qed.

Lemma later_lines_ignored_witness :
  parse_evaluation (good_depth ++ nl ++ str "and more of the comment")
  = parse_evaluation good_depth.
Proof.
  apply (later_lines_ignored good_depth (str "and more of the comment"));
    vm_compute; discriminate.
Defined.

(* ===================================================================== *)
(** * Further properties: what [float] reads *)
(* ===================================================================== *)

Section FloatAlphabet.

Lemma take_sign_used (s r : pystr) (neg : bool) :
  take_sign s = (neg, r) -> exists used, s = used ++ r /\ Forall float_ok used.
Proof.
  unfold take_sign. destruct s as [|c s].
  - intros H; inversion H. now exists [].
  - destruct (Ascii.eqb_spec c "-") as [->|N1].
    { intros H; inversion H. exists ["-"%char]. now repeat constructor. }
    destruct (Ascii.eqb_spec c "+") as [->|N2].
    { intros H; inversion H. exists ["+"%char]. now repeat constructor. }
    intros H. exists []. split; [|constructor].
    destruct c as [[] [] [] [] [] [] [] []]; inversion H; try reflexivity;
      congruence.
Qed.

Lemma take_digits_used (s ds r : pystr) :
  take_digits s = (ds, r) -> s = ds ++ r /\ forallb isdecimal ds = true.
Proof.
  revert ds r; induction s as [|c s IH]; intros ds r; cbn.
  - intros H; inversion H. now split.
  - destruct (isdecimal c) eqn:D.
    + destruct (take_digits s) as [ds' r'] eqn:E.
      intros H; inversion H; subst.
      destruct (IH _ _ eq_refl) as [-> F]. cbn. now rewrite D, F.
    + intros H; inversion H. now split.
Qed.

Lemma digits_ok (ds : pystr) : forallb isdecimal ds = true -> Forall float_ok ds.
Proof.
  intros H. apply Forall_forall. intros c I.
  rewrite forallb_forall in H. unfold float_ok, float_char. now rewrite (H c I).
Qed.

Lemma strip_word_used (word : string) (s r : pystr) :
  (forall c, In c (str word) -> In c (str "infinitya")) ->
  strip_word word s = Some r -> exists used, s = used ++ r /\ Forall float_ok used.
Proof.
  intros W. unfold strip_word.
  destruct (list_eq_dec _ _ _) as [E|]; [|discriminate].
  intros H; inversion H; subst r.
  exists (firstn (List.length (str word)) s).
  split; [now rewrite firstn_skipn|].
  apply Forall_forall. intros c I.
  assert (L : In (lower c) (str word)).
  { rewrite <- E. now apply in_map. }
  apply W in L. unfold float_ok, float_char.
  assert (X : existsb (Ascii.eqb (lower c)) (str "infinitya") = true).
  { apply existsb_exists. exists (lower c). split; [exact L|].
    apply Ascii.eqb_refl. }
  rewrite X. apply orb_true_r.
Qed.

Lemma parse_inf_or_nan_used (s rest : pystr) (x : float64) :
  parse_inf_or_nan s = Some (x, rest) ->
  exists used, s = used ++ rest /\ Forall float_ok used.
Proof.
  unfold parse_inf_or_nan.
  destruct (take_sign s) as [neg s1] eqn:T.
  destruct (take_sign_used _ _ _ T) as (u0 & -> & F0).
  assert (Wi : forall c, In c (str "inf") -> In c (str "infinitya"))
    by (vm_compute; tauto).
  assert (Wy : forall c, In c (str "inity") -> In c (str "infinitya"))
    by (vm_compute; tauto).
  assert (Wn : forall c, In c (str "nan") -> In c (str "infinitya"))
    by (vm_compute; tauto).
  destruct (strip_word "inf" s1) as [s2|] eqn:I.
  - destruct (strip_word_used _ _ _ Wi I) as (u1 & -> & F1).
    destruct (strip_word "inity" s2) as [s3|] eqn:Y.
    + destruct (strip_word_used _ _ _ Wy Y) as (u2 & -> & F2).
      intros H; inversion H; subst.
      exists (u0 ++ u1 ++ u2). rewrite <- !app_assoc. split; [reflexivity|].
      now rewrite !Forall_app.
    + intros H; inversion H; subst.
      exists (u0 ++ u1). rewrite <- !app_assoc. split; [reflexivity|].
      now rewrite !Forall_app.
  - destruct (strip_word "nan" s1) as [s2|] eqn:Nn; [|discriminate].
    destruct (strip_word_used _ _ _ Wn Nn) as (u1 & -> & F1).
    intros H; inversion H; subst.
    exists (u0 ++ u1). rewrite <- !app_assoc. split; [reflexivity|].
    now rewrite !Forall_app.
Qed.

Lemma parse_decimal_used (s rest : pystr) (d : decimal) :
  parse_decimal s = Some (d, rest) ->
  exists used, s = used ++ rest /\ Forall float_ok used.
Proof.
  unfold parse_decimal.
  destruct (take_sign s) as [neg s1] eqn:T.
  destruct (take_sign_used _ _ _ T) as (u0 & -> & F0).
  destruct (take_digits s1) as [ip s2] eqn:I.
  destruct (take_digits_used _ _ _ I) as (-> & Fi). apply digits_ok in Fi.
  assert (P : exists fp s3 up,
            (match s2 with
             | "."%char :: t => take_digits t
             | _ => ([], s2)
             end) = (fp, s3) /\ s2 = up ++ s3 /\ Forall float_ok up).
  { destruct s2 as [|c t].
    - exists [], [], []. repeat split. constructor.
    - destruct (Ascii.eqb_spec c ".") as [->|N].
      + destruct (take_digits t) as [fp s3] eqn:Fp.
        destruct (take_digits_used _ _ _ Fp) as (-> & Ff).
        exists fp, s3, ("."%char :: fp). repeat split.
        constructor; [reflexivity | now apply digits_ok].
      + exists [], (c :: t), []. split; [|split; [reflexivity|constructor]].
        destruct c as [[] [] [] [] [] [] [] []]; try reflexivity; congruence. }
  destruct P as (fp & s3 & up & -> & -> & Fp).
  destruct (ip ++ fp) as [|c0 m]; [discriminate|].
  assert (E : exists e s4 ue,
            (match s3 with
             | c :: t =>
                 if Ascii.eqb (lower c) "e" then
                   let '(eneg, t1) := take_sign t in
                   let '(ed, t2) := take_digits t1 in
                   match ed with
                   | [] => (0%Z, s3)
                   | _ :: _ => (cond_Zopp eneg (Z.of_N (digits_value ed)), t2)
                   end
                 else (0%Z, s3)
             | [] => (0%Z, s3)
             end) = (e, s4) /\ s3 = ue ++ s4 /\ Forall float_ok ue).
  { destruct s3 as [|c t].
    - exists 0%Z, [], []. repeat split. constructor.
    - destruct (Ascii.eqb (lower c) "e") eqn:Le.
      + destruct (take_sign t) as [eneg t1] eqn:Ts.
        destruct (take_sign_used _ _ _ Ts) as (us & -> & Fs).
        destruct (take_digits t1) as [ed t2] eqn:Td.
        destruct (take_digits_used _ _ _ Td) as (-> & Fd).
        destruct ed as [|d0 ed].
        * exists 0%Z, (c :: us ++ [] ++ t2), []. repeat split. constructor.
        * exists (cond_Zopp eneg (Z.of_N (digits_value (d0 :: ed)))), t2,
            (c :: us ++ d0 :: ed).
          split; [reflexivity|]. split.
          { cbn. now rewrite <- app_assoc. }
          constructor.
          { unfold float_ok, float_char. apply Ascii.eqb_eq in Le.
            destruct c as [[] [] [] [] [] [] [] []];
              try reflexivity; vm_compute in Le; discriminate. }
          apply Forall_app. split; [exact Fs | now apply digits_ok].
      + exists 0%Z, (c :: t), []. repeat split. constructor. }
  destruct E as (e & s4 & ue & -> & -> & Fe).
  intros H; inversion H; subst.
  exists (u0 ++ ip ++ up ++ ue). rewrite <- !app_assoc.
  split; [reflexivity|]. now rewrite !Forall_app.
Qed.

Lemma string_to_double_used (s : pystr) (x : float64) :
  string_to_double s = Some (x, []) -> Forall float_ok s.
Proof.
  unfold string_to_double.
  destruct (parse_decimal s) as [[d rest]|] eqn:P.
  - intros H; inversion H; subst.
    destruct (parse_decimal_used _ _ _ P) as (u & -> & F).
    now rewrite app_nil_r.
  - intros H. destruct (parse_inf_or_nan_used _ _ _ H) as (u & -> & F).
    now rewrite app_nil_r.
Qed.

Lemma c_lstrip_split (s : pystr) :
  exists ws, s = ws ++ c_lstrip s /\ Forall float_ok ws.
Proof.
  induction s as [|c s (ws & E & W)]; cbn.
  - exists []. split; [reflexivity | constructor].
  - destruct (c_isspace c) eqn:C.
    + exists (c :: ws). split; [cbn; now f_equal|].
      constructor; [|exact W]. unfold float_ok, float_char.
      assert (Sp : isspace c = true).
      { unfold c_isspace, isspace in *.
        apply orb_prop in C as [C|C].
        - now rewrite C.
        - apply N.eqb_eq in C. unfold in_range. rewrite C. reflexivity. }
      rewrite Sp. now rewrite orb_true_r.
    + exists []. split; [reflexivity | constructor].
Qed.

Lemma c_strip_ok (s : pystr) : Forall float_ok (c_strip s) -> Forall float_ok s.
Proof.
  unfold c_strip. intros H.
  destruct (c_lstrip_split s) as (ws & E & W).
  destruct (c_lstrip_split (rev (c_lstrip s))) as (ws' & E' & W').
  rewrite E. apply Forall_app. split; [exact W|].
  rewrite <- (rev_involutive (c_lstrip s)), E', rev_app_distr.
  apply Forall_app. split; [exact H|]. now apply Forall_rev.
Qed.

Lemma drop_underscores_ok (s r : pystr) (prev : ascii) :
  drop_underscores prev s = Some r -> Forall float_ok r -> Forall float_ok s.
Proof.
  revert prev r; induction s as [|c s IH]; intros prev r; cbn.
  - intros _ _. constructor.
  - destruct (Ascii.eqb_spec c "_") as [->|N].
    + destruct (isdecimal prev); [|discriminate].
      intros H F. constructor; [reflexivity | now apply (IH _ _ H)].
    + destruct (Ascii.eqb prev "_" && negb (isdecimal c))%bool;
        [discriminate|].
      destruct (drop_underscores c s) as [r'|] eqn:E; [|discriminate].
      intros H F. inversion H; subst. inversion F; subst.
      constructor; [assumption | now apply (IH _ _ E)].
Qed.

Lemma without_underscores_ok (s r : pystr) :
  without_underscores s = Some r -> Forall float_ok r -> Forall float_ok s.
Proof.
  unfold without_underscores. destruct (existsb _ s).
  - apply drop_underscores_ok.
  - now intros H; inversion H.
Qed.

Lemma to_ascii_decimal_ok (s : pystr) :
  Forall float_ok (to_ascii_decimal s) -> Forall float_ok s.
Proof.
  induction s as [|c s IH]; cbn; [trivial|].
  destruct (N.ltb (code c) 127).
  - intros F. inversion F; subst. constructor; auto.
  - destruct (isspace c) eqn:Sp.
    + intros F. inversion F; subst. constructor; [|auto].
      unfold float_ok, float_char. rewrite Sp. now rewrite orb_true_r.
    + intros F. inversion F as [|? ? Q]; subst. discriminate Q.
Qed.

(** Every character of a string [float] accepts is one of the grammar. *)
Lemma float_alphabet (s : pystr) (x : float64) :
  float s = Ok x -> Forall float_ok s.
Proof.
  unfold float.
  destruct (without_underscores (to_ascii_decimal s)) as [t|] eqn:U;
    [|discriminate].
  destruct (string_to_double (c_strip t)) as [[y [|]]|] eqn:D;
    try discriminate.
  intros _. apply to_ascii_decimal_ok.
  apply (without_underscores_ok _ _ U).
  apply c_strip_ok. now apply (string_to_double_used _ y).
Qed.

End FloatAlphabet.

Lemma strip_keeps (s : pystr) (c : ascii) :
  In c s -> isspace c = false -> In c (strip s).
Proof.
  intros I Sp. unfold strip.
  destruct (lstrip_split s) as (ws & E & W).
  destruct (rstrip_split (lstrip s)) as (ws' & E' & W').
  rewrite E, E' in I.
  rewrite forallb_forall in W, W'.
  apply in_app_or in I as [I|I]; [apply W in I; congruence|].
  apply in_app_or in I as [I|I]; [exact I|].
  apply W' in I; congruence.
Qed.

(** X7.  A score the model does not write as a bare number is silently
    read as 0: when the text the score is read from (after the first
    [Score:] of the first line that has one) holds any character outside
    the alphabet of [float], such as the slash of ["8/10"], the recorded
    score is the integer 0. *)
Theorem unreadable_score (eval_text line pre post : pystr) (c : ascii) :
  first_line_with "Score:" eval_text = Some line ->
  partition (str "Score:") line = Some (pre, post) ->
  In c (field_text (str "Score:") post) ->
  float_char c = false ->
  parse_score eval_text = PyInt 0.
Proof.
  intros F P I N.
  rewrite parse_score_unfold, F, (segment_after_partition _ _ _ _ P).
  unfold score_from.
  destruct (float (strip (field_text (str "Score:") post))) as [x|] eqn:E;
    [|reflexivity].
  apply float_alphabet in E. rewrite Forall_forall in E.
  assert (Sp : isspace c = false).
  { unfold float_char in N. destruct (isspace c); [|reflexivity].
    now rewrite orb_true_r in N. }
  specialize (E c (strip_keeps _ c I Sp)). congruence.
Qed.

Lemma unreadable_score_witness :
  parse_score (str "Score: 8/10" ++ nl ++ str "Comment: fine") = PyInt 0.
Proof.
  apply (unreadable_score _ (str "Score: 8/10") [] (str " 8/10") "/"%char);
    vm_compute; tauto.
Defined.

Lemma digit_facts (c : ascii) :
  isdecimal c = true ->
  isspace c = false /\ c_isspace c = false /\
  N.ltb (code c) 127 = true /\ Ascii.eqb "_" c = false /\
  c <> "S"%char /\ c <> LF /\
  forall s, take_sign (c :: s) = (false, c :: s).
Proof.
  destruct c as [[] [] [] [] [] [] [] []]; intros H;
    try (vm_compute in H; discriminate H).
  all: repeat split; try reflexivity.
  all: intros X; vm_compute in X; discriminate X.
Qed.

Section Digits.

Variable ds : pystr.
Hypothesis digits : forallb isdecimal ds = true.

Lemma digits_in (c : ascii) : In c ds -> isdecimal c = true.
Proof. rewrite forallb_forall in digits. apply digits. Qed.

Lemma digits_to_ascii : to_ascii_decimal ds = ds.
Proof.
  revert digits. clear.
  induction ds as [|c l IH]; cbn [to_ascii_decimal forallb]; [reflexivity|].
  intros H. apply andb_prop in H as [D F].
  destruct (digit_facts c D) as (_ & _ & -> & _). now rewrite IH.
Qed.

Lemma digits_no_underscore : without_underscores ds = Some ds.
Proof.
  unfold without_underscores.
  assert (E : existsb (Ascii.eqb "_") ds = false).
  { revert digits. clear.
    induction ds as [|c l IH]; cbn [existsb forallb]; [reflexivity|].
    intros H. apply andb_prop in H as [D F].
    destruct (digit_facts c D) as (_ & _ & _ & -> & _). now apply IH. }
  now rewrite E.
Qed.

Lemma digits_take : take_digits ds = (ds, []).
Proof.
  revert digits. clear.
  induction ds as [|c l IH]; cbn [take_digits forallb]; [reflexivity|].
  intros H. apply andb_prop in H as [-> F]. now rewrite IH.
Qed.

Lemma digits_rev : forallb isdecimal (rev ds) = true.
Proof.
  apply forallb_forall. intros c I. apply digits_in. now apply in_rev.
Qed.

End Digits.

Lemma digits_c_lstrip (ds : pystr) :
  forallb isdecimal ds = true -> c_lstrip ds = ds.
Proof.
  destruct ds as [|c l]; [reflexivity|]. cbn.
  intros H. apply andb_prop in H as [D _].
  now destruct (digit_facts c D) as (_ & -> & _).
Qed.

Lemma digits_lstrip (ds : pystr) :
  forallb isdecimal ds = true -> lstrip ds = ds.
Proof.
  destruct ds as [|c l]; [reflexivity|]. cbn.
  intros H. apply andb_prop in H as [D _].
  now destruct (digit_facts c D) as (-> & _).
Qed.

Lemma digits_strip (ds : pystr) :
  forallb isdecimal ds = true -> strip ds = ds.
Proof.
  intros H. unfold strip, rstrip.
  rewrite (digits_lstrip ds H), (digits_lstrip _ (digits_rev ds H)).
  apply rev_involutive.
Qed.

Lemma round_integer (n : N) :
  round_decimal {| d_neg := false; d_mant := n; d_exp10 := 0 |}
  = b64 (Z.of_N n) 0.
Proof.
  destruct n as [|m]; [reflexivity|].
  unfold round_decimal, b64. cbn [d_mant d_exp10 d_neg cond_Zopp Z.of_N].
  change (Z.pow 10 0) with 1%Z. now rewrite Z.mul_1_r.
Qed.

(** A string of decimal digits is read as the double nearest to the
    integer it writes. *)
Lemma float_digits (ds : pystr) :
  ds <> [] -> forallb isdecimal ds = true ->
  float ds = Ok (b64 (Z.of_N (digits_value ds)) 0).
Proof.
  intros Ne D. unfold float.
  rewrite (digits_to_ascii ds D), (digits_no_underscore ds D).
  unfold c_strip.
  rewrite (digits_c_lstrip ds D), (digits_c_lstrip _ (digits_rev ds D)).
  rewrite rev_involutive.
  unfold string_to_double, parse_decimal.
  destruct ds as [|c l]; [congruence|].
  assert (Dc : isdecimal c = true) by (cbn in D; now apply andb_prop in D).
  destruct (digit_facts c Dc) as (_ & _ & _ & _ & _ & _ & ->).
  rewrite (digits_take (c :: l) D). rewrite app_nil_r.
  cbn [List.length Z.of_nat Z.sub Z.opp Z.add].
  now rewrite round_integer.
Qed.

Lemma partition_absent (a : ascii) (sep' s : pystr) :
  ~ In a s -> partition (a :: sep') s = None.
Proof.
  induction s as [|x s IH]; intros N; [reflexivity|].
  cbn. destruct (Ascii.eqb_spec a x) as [->|_].
  - exfalso. apply N. now left.
  - rewrite IH; [reflexivity|]. intros I. apply N. now right.
Qed.

(** X8.  A whole number after ["Score: "] is read as that number, whatever
    its size: ["Score: 7"] gives 7.0 and ["Score: 100"] gives 100.0, on a
    response of one line and with anything on later lines.  Nothing
    confines a score to the range 0 to 10. *)
Theorem integer_score (ds extra : pystr) :
  ds <> [] -> forallb isdecimal ds = true ->
  parse_score (str "Score: " ++ ds)
  = PyFloat (b64 (Z.of_N (digits_value ds)) 0) /\
  parse_score ((str "Score: " ++ ds) ++ nl ++ extra)
  = PyFloat (b64 (Z.of_N (digits_value ds)) 0).
Proof.
  intros Ne D.
  assert (NoLF : ~ In LF (str "Score: " ++ ds)).
  { intros I. apply in_app_or in I as [I|I].
    - vm_compute in I. intuition discriminate.
    - apply (digits_in ds D) in I.
      now destruct (digit_facts LF I) as (_ & _ & _ & _ & _ & X & _). }
  assert (NoS : ~ In "S"%char (" "%char :: ds)).
  { intros [I|I]; [discriminate|].
    apply (digits_in ds D) in I.
    now destruct (digit_facts _ I) as (_ & _ & _ & _ & X & _). }
  assert (F : first_line_with "Score:" (str "Score: " ++ ds)
              = Some (str "Score: " ++ ds)).
  { unfold first_line_with, nl. rewrite split_unfold.
    rewrite (partition_absent LF [] _ NoLF). reflexivity. }
  assert (P : parse_score (str "Score: " ++ ds)
              = PyFloat (b64 (Z.of_N (digits_value ds)) 0)).
  { rewrite parse_score_unfold, F.
    rewrite (segment_after_partition (str "Score:") _ [] (" "%char :: ds))
      by reflexivity.
    unfold field_text.
    change (str "Score:") with ("S"%char :: str "core:").
    rewrite (partition_absent _ _ _ NoS).
    unfold score_from.
    assert (St : strip (" "%char :: ds) = ds).
    { unfold strip. change (lstrip (" "%char :: ds)) with (lstrip ds).
      apply (digits_strip ds D). }
    now rewrite St, (float_digits ds Ne D). }
  split; [exact P|].
  rewrite <- P. apply parse_score_later. now rewrite F.
Qed.

Lemma integer_score_witness :
  parse_score (str "Score: 100") = PyFloat (b64 100 0).
Proof.
  apply (integer_score (str "100") []); [discriminate | reflexivity].
Defined.

(* ===================================================================== *)
(** * Further properties: what an execution does *)
(* ===================================================================== *)

Section Cases.

Variable env : environment.
Variable w : widgets.

(** Every execution on a store with all four keys is one of six. *)
Lemma run_cases (qs ans : list pystr) (evs : list evaluation) (n : nat) :
  let s := ready qs ans evs n in
  (clicked w = Some StartInterview /\
   ((exists text,
       question_chain env (field w) (tone w) (num_questions w) = Ok text /\
       run env w s =
       {| stopped := None; store := ready (questions_of text) [] [] 0;
          trace := [Button StartInterview; ask w]
                   ++ first_question (questions_of text) |}) \/
    (exists e,
       question_chain env (field w) (tone w) (num_questions w) = Raise e /\
       run env w s =
       {| stopped := Some (Uncaught e); store := cleared;
          trace := [Button StartInterview; ask w] |}))) \/
  (clicked w <> Some StartInterview /\ qs = [] /\
   run env w s =
   {| stopped := None; store := s; trace := [Button StartInterview] |}) \/
  (clicked w = Some ExitInterview /\ qs <> [] /\
   run env w s =
   {| stopped := Some RerunRequested; store := cleared;
      trace := [Button StartInterview; Button ExitInterview] |}) \/
  (exists q,
     nth_error qs n = Some q /\ clicked w = Some (SubmitAnswer n) /\
     run env w s = submit_outcome env w qs ans evs n q) \/
  (exists q,
     nth_error qs n = Some q /\
     clicked w <> Some StartInterview /\ clicked w <> Some ExitInterview /\
     clicked w <> Some (SubmitAnswer n) /\
     run env w s =
     {| stopped := None; store := s;
        trace := [Button StartInterview; Button ExitInterview]
                 ++ question_widgets n q |}) \/
  (qs <> [] /\ List.length qs <= n /\
   clicked w <> Some StartInterview /\ clicked w <> Some ExitInterview /\
   run env w s = completed_outcome env w qs ans evs n).
Proof.
  cbv zeta.
  assert (Dec : forall b, clicked w = Some b \/ clicked w <> Some b).
  { intros b. destruct (clicked w) as [c|]; [|right; discriminate].
    destruct (button_eqb c b) eqn:E.
    - left. f_equal.
      destruct c, b; try discriminate; try reflexivity.
      apply Nat.eqb_eq in E. now subst.
    - right. intros H. inversion H; subst.
      destruct b; cbn in E; try discriminate.
      now rewrite Nat.eqb_refl in E. }
  destruct (Dec StartInterview) as [C|NS].
  { left. split; [exact C|].
    destruct (question_chain env (field w) (tone w) (num_questions w))
      as [text|e] eqn:Q.
    - left. exists text. split; [reflexivity|].
      now apply run_start; [left|].
    - right. exists e. split; [reflexivity|].
      apply run_start_failed; [|exact Q]. unfold starts. now rewrite C. }
  right. destruct qs as [|q0 qs'] eqn:Eq.
  { left. repeat split; [exact NS|]. now apply run_without_questions. }
  right. destruct (Dec ExitInterview) as [C|NE].
  { left. repeat split; [exact C|discriminate|]. now apply run_exit. }
  right. rewrite <- Eq.
  destruct (Nat.ltb_spec n (List.length qs)) as [Lt|Ge].
  - destruct (nth_error qs n) as [q|] eqn:Hq;
      [|apply nth_error_None in Hq; lia].
    destruct (Dec (SubmitAnswer n)) as [C|NSub].
    + left. exists q. repeat split; try assumption. now apply run_submit.
    + right. left. exists q. repeat split; try assumption.
      now apply run_question_idle.
  - right. right. repeat split; try assumption.
    + subst qs. discriminate.
    + apply run_completed; try assumption. subst qs. discriminate.
Qed.

End Cases.

Lemma calls_app (t1 t2 : list effect) : calls (t1 ++ t2) = calls t1 ++ calls t2.
Proof. apply filter_app. Qed.

Lemma calls_report (i : nat) (rows : list (pystr * pystr * evaluation)) :
  calls (report_effects i rows) = [].
Proof.
  revert i; induction rows as [|[[q a] e] rows IH]; intros i;
    [reflexivity|].
  cbn. apply IH.
Qed.

Lemma calls_completed (env : environment) (w : widgets)
  (qs ans : list pystr) (evs : list evaluation) (n : nat) :
  calls (trace (completed_outcome env w qs ans evs n)) = [].
Proof.
  unfold completed_outcome, completed_widgets.
  pose proof (calls_report 0 (zip3 qs ans evs)) as R. unfold calls in *.
  destruct (pressed w SaveInterview); [destruct (open_w env _)|];
    cbn [trace]; rewrite ?filter_app; cbn -[report_effects zip3];
    rewrite ?filter_app, R; reflexivity.
Qed.

(** X9.  An execution on a store with all four keys calls the model at most
    once: the question chain when the start button was pressed, the
    evaluation chain, with the question on display and the typed answer,
    when that question's submit button was pressed with a non-blank answer,
    and nothing otherwise.  Redrawing the page costs no model call. *)
Theorem model_calls (env : environment) (w : widgets)
  (qs ans : list pystr) (evs : list evaluation) (n : nat) :
  let t := trace (run env w (ready qs ans evs n)) in
  (clicked w = Some StartInterview /\
   calls t = [InvokeQuestionChain (field w) (tone w) (num_questions w)]) \/
  (exists q,
     clicked w = Some (SubmitAnswer n) /\ nth_error qs n = Some q /\
     strip (answer_box w n) <> [] /\
     calls t = [InvokeEvalChain q (answer_box w n)]) \/
  (clicked w <> Some StartInterview /\
   (clicked w = Some (SubmitAnswer n) ->
    n < List.length qs -> strip (answer_box w n) = []) /\
   calls t = []).
Proof.
  cbv zeta.
  destruct (run_cases env w qs ans evs n)
    as [(C & [(text & _ & R)|(e & _ & R)])
       |[(NS & E & R)
        |[(C & Ne & R)
         |[(q & Hq & C & R)
          |[(q & Hq & NS & NE & NSub & R)
           |(Ne & Ge & NS & NE & R)]]]]]; rewrite R.
  - left. split; [exact C|]. unfold first_question.
    destruct (questions_of text); reflexivity.
  - left. split; [exact C | reflexivity].
  - right. right. split; [exact NS|]. split; [|reflexivity].
    subst qs. cbn. lia.
  - right. right. split; [congruence|]. split; [congruence | reflexivity].
  - unfold submit_outcome.
    destruct (strip (answer_box w n)) as [|c r] eqn:S; cbn [truthy].
    + right. right. split; [congruence|]. split; [reflexivity..].
    + right. left. exists q. split; [exact C|]. split; [exact Hq|].
      split; [discriminate|].
      destruct (eval_chain env q (answer_box w n)); reflexivity.
  - right. right. split; [exact NS|]. split; [congruence | reflexivity].
  - right. right. split; [exact NS|]. split; [lia | apply calls_completed].
Qed.

Lemma no_dump_question (f : pystr) (d : json) (n : nat) (q : pystr) :
  ~ In (JsonDump f d) (question_widgets n q).
Proof. cbn. intuition discriminate. Qed.

(** X10.  A transcript is written only by the save button of the completed
    page: if an execution on a store with all four keys dumps a document,
    then the save button was pressed, every question had been answered, the
    file opened, and the document is the transcript of the store under the
    name derived from the field. *)
Theorem dump_only_on_save (env : environment) (w : widgets)
  (qs ans : list pystr) (evs : list evaluation) (n : nat)
  (f : pystr) (d : json) :
  In (JsonDump f d) (trace (run env w (ready qs ans evs n))) ->
  clicked w = Some SaveInterview /\
  phase_of (ready qs ans evs n) = COMPLETED /\
  open_w env f = Ok tt /\
  f = transcript_filename (field w) /\
  d = transcript w qs ans evs.
Proof.
  destruct (run_cases env w qs ans evs n)
    as [(C & [(text & _ & R)|(e & _ & R)])
       |[(NS & E & R)
        |[(C & Ne & R)
         |[(q & Hq & C & R)
          |[(q & Hq & NS & NE & NSub & R)
           |(Ne & Ge & NS & NE & R)]]]]]; rewrite R; cbn [trace].
  - unfold first_question. destruct (questions_of text); cbn;
      intuition discriminate.
  - cbn. intuition discriminate.
  - cbn. intuition discriminate.
  - cbn. intuition discriminate.
  - unfold submit_outcome.
    destruct (truthy _); [destruct (eval_chain env _ _)|]; cbn;
      intuition discriminate.
  - cbn. intuition discriminate.
  - unfold completed_outcome, completed_widgets, pressed.
    destruct (clicked w) as [[| |k|]|] eqn:C; cbn [button_eqb trace];
      try (intros I; exfalso; cbn in I;
           destruct I as [I|[I|[I|I]]]; try discriminate;
           apply in_app_or in I as [I|I];
           [now apply report_effects_no_dump in I
           |cbn in I; intuition discriminate]).
    destruct (open_w env (transcript_filename (field w))) as [[]|e] eqn:O;
      cbn [trace].
    + intros I. cbn in I. destruct I as [I|[I|[I|I]]]; try discriminate.
      rewrite <- app_assoc in I. apply in_app_or in I as [I|I];
        [now apply report_effects_no_dump in I|].
      cbn in I. destruct I as [I|[I|[I|[]]]]; try discriminate.
      inversion I; subst. repeat split; try assumption.
      rewrite phase_of_ready. destruct qs; [congruence|].
      apply Nat.ltb_ge in Ge. now rewrite Ge.
    + intros I. exfalso. cbn in I.
      destruct I as [I|[I|[I|I]]]; try discriminate.
      apply in_app_or in I as [I|I];
        [now apply report_effects_no_dump in I
        |cbn in I; intuition discriminate].
Qed.

Lemma dump_only_on_save_witness :
  phase_of demo_completed = COMPLETED.
Proof.
  refine (proj1 (proj2 (dump_only_on_save demo_env
                   (demo_widgets (Some SaveInterview) [])
                   demo_questions _ _ 2
                   (transcript_filename (str "Data Science"))
                   (transcript (demo_widgets (Some SaveInterview) [])
                      demo_questions
                      [str "A fit to noise."; str "TP / (TP + FN)"]
                      [demo_evaluation; demo_evaluation]) _))).
  vm_compute. tauto.
Defined.

Lemma save_button_drawn (qs ans : list pystr) (evs : list evaluation) :
  In (Button SaveInterview) (completed_widgets qs ans evs).
Proof.
  unfold completed_widgets. right. apply in_or_app. right. now left.
Qed.

(** X11.  A button acts only where it is drawn: when the button whose press
    caused an execution is not among those the execution draws, the
    execution is the one no press causes; store, trace and end are the
    same. *)
Theorem undrawn_button_ignored (env : environment) (w : widgets)
  (qs ans : list pystr) (evs : list evaluation) (n : nat) (b : button) :
  clicked w = Some b ->
  ~ In (Button b) (trace (run env w (ready qs ans evs n))) ->
  run env w (ready qs ans evs n) = run env (unclicked w) (ready qs ans evs n).
Proof.
  intros Cb.
  destruct (run_cases env w qs ans evs n)
    as [(C & [(text & _ & R)|(e & _ & R)])
       |[(NS & E & R)
        |[(C & Ne & R)
         |[(q & Hq & C & R)
          |[(q & Hq & NS & NE & NSub & R)
           |(Ne & Ge & NS & NE & R)]]]]]; rewrite R; cbn [trace];
    intros N.
  - exfalso. apply N. rewrite Cb in C. inversion C. now left.
  - exfalso. apply N. rewrite Cb in C. inversion C. now left.
  - subst qs. now rewrite run_without_questions.
  - exfalso. apply N. rewrite Cb in C. inversion C. right. now left.
  - exfalso. apply N. rewrite Cb in C. inversion C. unfold submit_outcome.
    destruct (truthy _); [destruct (eval_chain env _ _)|]; cbn; tauto.
  - now rewrite (run_question_idle env (unclicked w) qs ans evs n q Hq).
  - rewrite (run_completed env (unclicked w)); try assumption;
      try discriminate.
    unfold completed_outcome in *. unfold pressed in *. rewrite Cb in *.
    cbn [clicked unclicked].
    destruct (button_eqb b SaveInterview) eqn:E; [|reflexivity].
    exfalso. apply N. destruct b; try discriminate.
    pose proof (save_button_drawn qs ans evs) as D.
    destruct (open_w env _); cbn [trace]; rewrite !in_app_iff; tauto.
Qed.

Lemma undrawn_button_ignored_witness :
  run demo_env (demo_widgets (Some (SubmitAnswer 0)) (str "again"))
    demo_completed
  = run demo_env (unclicked (demo_widgets (Some (SubmitAnswer 0))
                               (str "again")))
      demo_completed.
Proof.
  apply (undrawn_button_ignored demo_env
           (demo_widgets (Some (SubmitAnswer 0)) (str "again"))
           demo_questions _ _ 2 (SubmitAnswer 0) eq_refl).
  vm_compute. intuition discriminate.
Defined.



(* ===================================================================== *)
(** * Further properties: a whole interview *)
(* ===================================================================== *)


Section Interview.

Variable env : environment.
Variable w : widgets.
Variable model : pystr -> pystr -> pystr.
Hypothesis model_answers : forall q a, eval_chain env q a = Ok (model q a).
Variable qs : list pystr.



End Interview.


(* ===================================================================== *)
(** * Further properties: the completed page and the file name *)
(* ===================================================================== *)

Lemma zip3_nth_error {A B C} (l1 : list A) (l2 : list B) (l3 : list C)
  (k : nat) (a : A) (b : B) (c : C) :
  nth_error l1 k = Some a -> nth_error l2 k = Some b ->
  nth_error l3 k = Some c ->
  nth_error (zip3 l1 l2 l3) k = Some (a, b, c).
Proof.
  revert l1 l2 l3; induction k as [|k IH];
    intros [|x l1] [|y l2] [|z l3]; cbn; try discriminate.
  - now intros H1 H2 H3; inversion H1; inversion H2; inversion H3.
  - apply IH.
Qed.

Lemma report_effects_row (rows : list (pystr * pystr * evaluation)) :
  forall i k q a e,
    nth_error rows k = Some (q, a, e) ->
    incl
      [Markdown [Text (str "**Q"); Num (PyInt (Z.of_nat (i + k) + 1));
                 Text (str ": "); Text q; Text (str "**")];
       Markdown [Text (str "- Your Answer: "); Text a];
       Markdown [Text (str "- Score: "); Num (score e); Text (str " / 10")];
       Markdown [Text (str "- Comment: "); Text (comment e)]]
      (report_effects i rows).
Proof.
  induction rows as [|[[q0 a0] e0] rows IH]; intros i k q a e;
    destruct k as [|k]; cbn [nth_error]; try discriminate.
  - intros H; inversion H; subst. rewrite Nat.add_0_r.
    intros x [<-|[<-|[<-|[<-|[]]]]]; cbn; tauto.
  - intros H x I. replace (i + S k) with (S i + k) in I by lia.
    apply (IH (S i) k q a e H) in I.
    cbn [report_effects]. do 5 right. exact I.
Qed.

(** X14.  The completed page of a reachable session reports every
    question: for each position below the number of questions it shows the
    numbered question, the answer, the score and the comment stored at that
    position.  The [zip] of line 122 drops nothing. *)
Theorem report_complete (env : environment) (w : widgets)
  (s : session_state) (k : nat) :
  reachable s -> phase_of s = COMPLETED ->
  clicked w <> Some StartInterview -> clicked w <> Some ExitInterview ->
  forall qs, questions s = Some qs -> k < List.length qs ->
  exists q a e,
    nth_error qs k = Some q /\
    (exists ans, answers s = Some ans /\ nth_error ans k = Some a) /\
    (exists evs, evaluations s = Some evs /\ nth_error evs k = Some e) /\
    incl
      [Markdown [Text (str "**Q"); Num (PyInt (Z.of_nat k + 1));
                 Text (str ": "); Text q; Text (str "**")];
       Markdown [Text (str "- Your Answer: "); Text a];
       Markdown [Text (str "- Score: "); Num (score e); Text (str " / 10")];
       Markdown [Text (str "- Comment: "); Text (comment e)]]
      (trace (run env w s)).
Proof.
  intros R P NS NE qs0 Q Lk.
  destruct (completed_ready s (reachable_inv s R) P)
    as (qs & ans & evs & -> & Hne & La & Le).
  cbn in Q. inversion Q; subst qs0.
  destruct (nth_error qs k) as [q|] eqn:Hq;
    [|apply nth_error_None in Hq; lia].
  destruct (nth_error ans k) as [a|] eqn:Ha;
    [|apply nth_error_None in Ha; lia].
  destruct (nth_error evs k) as [e|] eqn:He;
    [|apply nth_error_None in He; lia].
  exists q, a, e. split; [reflexivity|].
  split; [now exists ans|]. split; [now exists evs|].
  rewrite run_completed by (assumption || lia).
  pose proof (report_effects_row _ 0 k q a e
                (zip3_nth_error qs ans evs k q a e Hq Ha He)) as I.
  cbn [Nat.add] in I.
  intros x Hx. apply I in Hx.
  unfold completed_outcome, completed_widgets.
  destruct (pressed w SaveInterview); [destruct (open_w env _)|];
    cbn [trace]; rewrite !in_app_iff; cbn [In]; rewrite ?in_app_iff; tauto.
Qed.

Lemma report_complete_witness :
  exists q a e,
    nth_error demo_questions 1 = Some q /\
    (exists ans, answers demo_completed = Some ans /\
                 nth_error ans 1 = Some a) /\
    (exists evs, evaluations demo_completed = Some evs /\
                 nth_error evs 1 = Some e) /\
    incl
      [Markdown [Text (str "**Q"); Num (PyInt (Z.of_nat 1 + 1));
                 Text (str ": "); Text q; Text (str "**")];
       Markdown [Text (str "- Your Answer: "); Text a];
       Markdown [Text (str "- Score: "); Num (score e); Text (str " / 10")];
       Markdown [Text (str "- Comment: "); Text (comment e)]]
      (trace (run demo_env (demo_widgets None []) demo_completed)).
Proof.
  apply (report_complete demo_env (demo_widgets None []) demo_completed 1
           reachable_demo_completed eq_refl);
    try discriminate; [reflexivity | cbn; lia].
Defined.

Lemma replace_no_old (old new : ascii) (s : pystr) :
  old <> new -> ~ In old (replace old new s).
Proof.
  intros N I. unfold replace in I. apply in_map_iff in I as (c & E & _).
  destruct (Ascii.eqb_spec c old); congruence.
Qed.

Lemma replace_twice (old new : ascii) (s : pystr) :
  replace old new (replace old new s) = replace old new s.
Proof.
  unfold replace. rewrite map_map. apply map_ext. intros c.
  destruct (Ascii.eqb_spec c old) as [->|N].
  - destruct (Ascii.eqb_spec new old); reflexivity.
  - destruct (Ascii.eqb_spec c old); congruence.
Qed.

(** X15.  The name of the transcript file holds no blank and is as long as
    the field plus the fifteen characters around it; every other character
    of the field, a path separator included, goes into the name as it is;
    and a field in which blanks are already underscores gives the same
    name, so ["Data Science"] and ["Data_Science"] share one file. *)
Theorem transcript_filename_shape (field : pystr) :
  ~ In " "%char (transcript_filename field) /\
  List.length (transcript_filename field) = 15 + List.length field /\
  (forall c, c <> " "%char -> In c field ->
             In c (transcript_filename field)) /\
  transcript_filename (replace " " "_" field) = transcript_filename field.
Proof.
  unfold transcript_filename. repeat split.
  - rewrite !in_app_iff. intros [I|[I|I]].
    + vm_compute in I. intuition discriminate.
    + apply (replace_no_old " " "_" field); [discriminate | exact I].
    + vm_compute in I. intuition discriminate.
  - rewrite !length_app. unfold replace. rewrite length_map.
    change (List.length (str "interview_")) with 10.
    change (List.length (str ".json")) with 5. lia.
  - intros c N I. rewrite !in_app_iff. right. left.
    unfold replace. apply in_map_iff. exists c. split; [|exact I].
    destruct (Ascii.eqb_spec c " "); congruence.
  - now rewrite replace_twice.
Qed.

(* ===================================================================== *)
(** * Both markers on one line *)
(* ===================================================================== *)

Lemma not_contains (sep s pre post : pystr) :
  contains sep s = false -> s <> pre ++ sep ++ post.
Proof.
  unfold contains. destruct (partition sep s) as [[]|] eqn:P;
    [discriminate|].
  intros _. now apply partition_none.
Qed.

Lemma contains_tail (sep : pystr) (x : ascii) (s : pystr) :
  contains sep (x :: s) = false -> contains sep s = false.
Proof.
  unfold contains. cbn.
  destruct (strip_prefix sep (x :: s)); [discriminate|].
  now destruct (partition sep s) as [[]|].
Qed.

(** A marker found after a gap that does not hold its first character is
    found at the same place from before the gap. *)
Lemma partition_past (a : ascii) (sep' gap post mid rest : pystr) :
  ~ In a gap ->
  partition (a :: sep') post = Some (mid, rest) ->
  partition (a :: sep') (gap ++ post) = Some (gap ++ mid, rest).
Proof.
  intros N P. induction gap as [|x gap IH]; [exact P|].
  change ((x :: gap) ++ post) with (x :: (gap ++ post)). cbn.
  destruct (Ascii.eqb_spec a x) as [->|_].
  - exfalso. apply N. now left.
  - rewrite IH; [reflexivity|]. intros I. apply N. now right.
Qed.

(** The same from before a text that does not hold the marker, when the
    gap begins with a character foreign to the marker. *)
Lemma partition_skip (a : ascii) (sep' pre : pystr) (g : ascii)
  (gap' post mid rest : pystr) :
  contains (a :: sep') pre = false ->
  ~ In a (g :: gap') ->
  ~ In g (a :: sep') ->
  partition (a :: sep') post = Some (mid, rest) ->
  partition (a :: sep') (pre ++ (g :: gap') ++ post)
  = Some (pre ++ (g :: gap') ++ mid, rest).
Proof.
  intros C Na Ng P. induction pre as [|x pre IH].
  - exact (partition_past a sep' (g :: gap') post mid rest Na P).
  - change ((x :: pre) ++ (g :: gap') ++ post)
      with (x :: (pre ++ (g :: gap') ++ post)).
    change (partition (a :: sep') (x :: (pre ++ (g :: gap') ++ post)))
      with (match strip_prefix (a :: sep')
                    ((x :: pre) ++ (g :: gap') ++ post) with
            | Some r => Some ([], r)
            | None =>
                match partition (a :: sep') (pre ++ (g :: gap') ++ post) with
                | Some (p, q) => Some (x :: p, q)
                | None => None
                end
            end).
    rewrite (IH (contains_tail _ _ _ C)).
    destruct (strip_prefix (a :: sep') ((x :: pre) ++ (g :: gap') ++ post))
      as [r|] eqn:E; [exfalso | reflexivity].
    apply strip_prefix_app in E.
    apply app_eq_app in E as (l & [[E1 E2]|[E1 E2]]).
    + apply (not_contains _ _ [] l C). exact E1.
    + destruct l as [|c l].
      * apply (not_contains _ _ [] [] C).
        rewrite app_nil_r in *. now rewrite E1.
      * inversion E2; subst c. apply Ng. rewrite E1.
        apply in_or_app. right. now left.
Qed.

(** With [Comment:] after the first [Score:] and no further [Score:] in
    between, the text the score is read from holds the capital C. *)
Lemma score_text_has_C (post mid rest : pystr) :
  partition (str "Comment:") post = Some (mid, rest) ->
  contains (str "Score:") mid = false ->
  In "C"%char (field_text (str "Score:") post).
Proof.
  intros Pc N. apply partition_app in Pc. unfold field_text.
  destruct (partition (str "Score:") post) as [[mid' rest']|] eqn:Ps.
  - apply partition_app in Ps. rewrite Pc in Ps.
    apply app_eq_app in Ps as (l & [[E1 E2]|[E1 E2]]).
    + exfalso.
      change (str "Score:" ++ rest')
        with ("S"%char :: "c"%char :: "o"%char :: "r"%char :: "e"%char
              :: ":"%char :: rest') in E2.
      change (str "Comment:" ++ rest)
        with ("C"%char :: str "omment:" ++ rest) in E2.
      destruct l as [|c0 [|c1 [|c2 [|c3 [|c4 [|c5 l]]]]]];
        cbn in E2; inversion E2; subst.
      now apply (not_contains _ _ mid' l N).
    + destruct l as [|c l].
      * exfalso. cbn in E2. vm_compute in E2. inversion E2.
      * change (str "Comment:" ++ rest)
          with ("C"%char :: str "omment:" ++ rest) in E2.
        inversion E2; subst. apply in_or_app. right. now left.
  - rewrite Pc. apply in_or_app. right. now left.
Qed.

Lemma score_from_unreadable (text : pystr) (c : ascii) :
  In c text -> float_char c = false -> score_from text = PyInt 0.
Proof.
  intros I N. unfold score_from.
  destruct (float (strip text)) as [x|] eqn:E; [|reflexivity].
  apply float_alphabet in E. rewrite Forall_forall in E.
  assert (Sp : isspace c = false).
  { unfold float_char in N. destruct (isspace c); [|reflexivity].
    now rewrite orb_true_r in N. }
  specialize (E c (strip_keeps _ c I Sp)). unfold float_ok in E. congruence.
Qed.

(** C9, as the script has it.  When, on the first line that contains
    [Score:], the marker [Comment:] follows the first [Score:] with no
    further [Score:] in between, as in ["Score: 5 Comment: hi"], the text
    the score is read from takes in the comment marker, [float] rejects it
    and the score is the fallback 0.  When that line is also the first one
    that contains [Comment:], and no [Comment:] stands before the first
    [Score:], the same line serves both extractions: the comment is the
    trimmed text after that [Comment:], up to a further [Comment:] if there
    is one, and the evaluation has score 0 with this comment. *)
Theorem same_line_markers (eval_text line pre post mid rest : pystr) :
  first_line_with "Score:" eval_text = Some line ->
  partition (str "Score:") line = Some (pre, post) ->
  partition (str "Comment:") post = Some (mid, rest) ->
  contains (str "Score:") mid = false ->
  parse_score eval_text = PyInt 0 /\
  (first_line_with "Comment:" eval_text = Some line ->
   contains (str "Comment:") pre = false ->
   comment_of eval_text = strip (field_text (str "Comment:") rest) /\
   parse_evaluation eval_text =
     Ok {| score := PyInt 0;
           comment := strip (field_text (str "Comment:") rest) |}).
Proof.
  intros Fs Ps Pc N.
  assert (S0 : parse_score eval_text = PyInt 0).
  { rewrite parse_score_unfold, Fs, (segment_after_partition _ _ _ _ Ps).
    apply (score_from_unreadable _ "C"%char); [|reflexivity].
    now apply (score_text_has_C post mid rest). }
  split; [exact S0|].
  intros Fc Np.
  assert (C0 : comment_of eval_text
               = strip (field_text (str "Comment:") rest)).
  { rewrite comment_of_unfold, Fc.
    pose proof (partition_app _ _ _ _ Ps) as L.
    assert (P : partition (str "Comment:") line
                = Some (pre ++ str "Score:" ++ mid, rest)).
    { rewrite L.
      apply (partition_skip "C"%char (str "omment:") pre "S"%char
               (str "core:") post mid rest Np).
      - vm_compute. intuition discriminate.
      - vm_compute. intuition discriminate.
      - exact Pc. }
    now rewrite (segment_after_partition _ _ _ _ P). }
  split; [exact C0|].
  rewrite parse_evaluation_ok. now rewrite S0, C0.
Qed.

Lemma same_line_markers_witness :
  parse_evaluation both_on_one_line
  = Ok {| score := PyInt 0; comment := str "hi" |}.
Proof.
  refine (eq_trans
            (proj2 (proj2 (same_line_markers both_on_one_line
                             both_on_one_line [] (str " 5 Comment: hi")
                             (str " 5 ") (str " hi") _ _ _ _) _ _)) _);
    vm_compute; reflexivity.
Defined.

(** C9 as a rule for every line with both markers fails on the script:
    with the markers in the other order the score is read, and so it is
    when a second [Score:] stands before the comment marker. *)
Lemma same_line_markers_counterexample :
  split nl (str "Comment: hi Score: 5") = [str "Comment: hi Score: 5"] /\
  contains (str "Score:") (str "Comment: hi Score: 5") = true /\
  contains (str "Comment:") (str "Comment: hi Score: 5") = true /\
  parse_evaluation (str "Comment: hi Score: 5")
  = Ok {| score := PyFloat (b64 5 0); comment := str "hi Score: 5" |} /\
  parse_evaluation (str "Score: 5 Score: 6 Comment: hi")
  = Ok {| score := PyFloat (b64 5 0); comment := str "hi" |}.
Proof.
  vm_compute. repeat split; reflexivity.
Qed.
